(** * preprocessing.py: vocabulary, sequence codec and embedding store

    A shallow embedding of [src/preprocessing/preprocessing.py]:
    the [Tokenizer] class (vocabulary building, text/sequence codec,
    weight-matrix construction) and the [WordEmbedding] class (embedding
    file loader and lookup).

    Conventions.
    - Python [int] is [Z]; a Python [dict] (insertion ordered since 3.7)
      and an [OrderedDict] are association lists without duplicate keys,
      kept in insertion order, because [create_weight_matrix] iterates
      [vocab.items()] and [fit] re-sorts [words_count].
    - Methods that mutate [self] return the new object; methods that can
      raise return a [result].  [load] returns the object together with
      the outcome, since the fields it has already assigned stay assigned
      when a later statement raises.
    - What the file only imports is a parameter: the spaCy pipeline and
      [str.lower] ([Pipeline]), the builtins [str.split] and [float] and
      numpy's sampling ([Numpy]).  Concrete instances for plain ASCII
      input are given at the end of the definitions. *)

From Stdlib Require Import String Ascii ZArith QArith Lia Bool Permutation List.
From Stdlib Require Import Sorted.
Import ListNotations.
Local Open Scope string_scope.
Local Open Scope Z_scope.
Local Open Scope list_scope.

(** ** Exceptions and results *)

Inductive exn : Type :=
| ValueError | TypeError | RuntimeError | KeyError
| IndexError | AttributeError | OSError.

Inductive result (A : Type) : Type :=
| Ok (a : A)
| Raise (e : exn).
Arguments Ok {A} a.
Arguments Raise {A} e.

Definition bind {A B : Type} (r : result A) (k : A -> result B) : result B :=
  match r with
  | Ok a => k a
  | Raise e => Raise e
  end.

Notation "x <- r ;; k" := (bind r (fun x => k))
  (at level 61, r at next level, right associativity).

Definition raised {A : Type} (r : result A) : Prop :=
  match r with Ok _ => False | Raise _ => True end.

(** ** Python dictionaries *)

Module Dict.
Section Defs.
Context {K V : Type} (eqb : K -> K -> bool).

(** [d[k]] / [k in d] *)
Fixpoint get (d : list (K * V)) (k : K) : option V :=
  match d with
  | [] => None
  | (k', v) :: d' => if eqb k' k then Some v else get d' k
  end.

Definition mem (d : list (K * V)) (k : K) : bool :=
  match get d k with Some _ => true | None => false end.

(** [d[k] = v]: an existing key keeps its position, a new one goes last. *)
Fixpoint set (d : list (K * V)) (k : K) (v : V) : list (K * V) :=
  match d with
  | [] => [(k, v)]
  | (k', v') :: d' =>
      if eqb k' k then (k', v) :: d' else (k', v') :: set d' k v
  end.
End Defs.
End Dict.

Abbreviation sget := (Dict.get String.eqb).
Abbreviation smem := (Dict.mem String.eqb).
Abbreviation sset := (Dict.set String.eqb).
Abbreviation zget := (Dict.get Z.eqb).
Abbreviation zmem := (Dict.mem Z.eqb).
Abbreviation zset := (Dict.set Z.eqb).

(** ** External collaborators *)

(** The spaCy [Language] object, seen through the only thing the code uses:
  calling it on a text yields a document whose tokens expose [.text];
  [lower] is [str.lower]. *)
Class Pipeline : Type := {
nlp : string -> list string;
lower : string -> string
}.

(** The builtins and numpy operations used by [WordEmbedding].
  [F] is the array element type (float64).  [py_float s] is [float(s)],
  [None] standing for its [ValueError]; [split] is [str.split()];
  [uniform g k] is the [k]-th sample drawn from generator [g] by
  [Generator.uniform(-0.5, 0.5, ...)]; [uninit] is what [np.empty]
  leaves in a cell that nobody wrote. *)
Class Numpy : Type := {
F : Type;
zero : F;
py_float : string -> option F;
split : string -> list string;
uniform : nat -> nat -> F;
uninit : F
}.

(** ** numpy arrays *)

Module Np.
Section Defs.
Context {NP : Numpy}.

(** A two-dimensional array of shape [(length rows, ncols)]. *)
Record ndarray : Type := mk { ncols : nat; rows : list (list F) }.

Definition nrows (m : ndarray) : Z := Z.of_nat (length (rows m)).

(** [np.zeros(d)] and [np.zeros((n, d))] *)
Definition zeros1 (d : Z) : list F := repeat zero (Z.to_nat d).
Definition zeros (n d : Z) : ndarray :=
  mk (Z.to_nat d) (repeat (zeros1 d) (Z.to_nat n)).

(** [np.empty(shape=(n, d))] *)
Definition empty (n d : Z) : ndarray :=
  mk (Z.to_nat d) (repeat (repeat uninit (Z.to_nat d)) (Z.to_nat n)).

(** [g.uniform(-0.5, 0.5, d)] and [g.uniform(-0.5, 0.5, size=(n, d))]:
    samples are consumed in row-major order. *)
Definition uniform1_from (g : nat) (start : nat) (d : nat) : list F :=
  map (fun j => uniform g (start + j)%nat) (seq 0 d).
Definition uniform1 (g : nat) (d : Z) : list F :=
  uniform1_from g 0 (Z.to_nat d).
Definition uniform2 (g : nat) (n d : Z) : ndarray :=
  mk (Z.to_nat d)
     (map (fun i => uniform1_from g (i * Z.to_nat d)%nat (Z.to_nat d))
          (seq 0 (Z.to_nat n))).

(** Position addressed by index [i] in an axis of length [n]; negative
    indices count from the end. *)
Definition norm_index (n i : Z) : option nat :=
  if (0 <=? i) && (i <? n) then Some (Z.to_nat i)
  else if (- n <=? i) && (i <? 0) then Some (Z.to_nat (i + n))
  else None.

Fixpoint replace_nth {A : Type} (l : list A) (k : nat) (x : A) : list A :=
  match l, k with
  | [], _ => []
  | _ :: l', O => x :: l'
  | y :: l', S k' => y :: replace_nth l' k' x
  end.

(** [m[i]] *)
Definition getitem (m : ndarray) (i : Z) : result (list F) :=
  match norm_index (nrows m) i with
  | None => Raise IndexError
  | Some k =>
      match nth_error (rows m) k with
      | Some r => Ok r
      | None => Raise IndexError
      end
  end.

(** [m[i] = v]: [v] must have the row's length, or length one, in which
    case its single element is broadcast over the row. *)
Definition setitem (m : ndarray) (i : Z) (v : list F) : result ndarray :=
  match norm_index (nrows m) i with
  | None => Raise IndexError
  | Some k =>
      if (length v =? ncols m)%nat then
        Ok (mk (ncols m) (replace_nth (rows m) k v))
      else
        match v with
        | [x] => Ok (mk (ncols m) (replace_nth (rows m) k (repeat x (ncols m))))
        | _ => Raise ValueError
        end
  end.

(** [np.array([float(val) for val in fields])] *)
Fixpoint floats (fields : list string) : result (list F) :=
  match fields with
  | [] => Ok []
  | s :: fields' =>
      match py_float s with
      | None => Raise ValueError
      | Some x => xs <- floats fields' ;; Ok (x :: xs)
      end
  end.
End Defs.
End Np.

(** ** class WordEmbedding *)

Module WordEmbedding.

Inductive oov_init_t : Type := rand | zero_init.

(** What [self.random_state] can hold after [__init__]: the module
    [numpy.random] itself, or a [numpy.random.RandomState] object
    (identified by the seed or state it was made from). *)
Inductive random_state_t : Type :=
| np_random
| RandomState (state : Z).

(** The [random_state] argument of [__init__]. *)
Inductive random_state_arg : Type :=
| arg_None
| arg_int (seed : Z)
| arg_RandomState (state : Z)
| arg_other.

(** A text file as [open] and line iteration see it. *)
Inductive file : Type :=
| Unreadable
| Lines (ls : list string).

Section Defs.
Context {NP : Numpy}.

Record t : Type := mk {
  embedding : option Np.ndarray;
  vocab : option (list (string * Z));
  reverse_vocab : option (list (Z * string));
  oov_init : oov_init_t;
  random_state : random_state_t;
  dimensions : Z
}.

(** [WordEmbedding(dimensions, oov_init, random_state)] *)
Definition init (dims : Z) (oov : string) (rs : random_state_arg) : result t :=
  oi <- (if String.eqb oov "zero" then Ok zero_init
         else if String.eqb oov "rand" then Ok rand
         else Raise ValueError) ;;
  st <- match rs with
        | arg_int seed => Ok (RandomState seed)
        | arg_RandomState s => Ok (RandomState s)
        | arg_None => Ok np_random
        | arg_other => Raise ValueError
        end ;;
  if (50 <=? dims) && (dims <? 301)
  then Ok (mk None None None oi st dims)
  else Raise ValueError.

(** [__count_lines] *)
Definition count_lines (f : file) : result Z :=
  match f with
  | Unreadable => Raise OSError
  | Lines ls => Ok (Z.of_nat (length ls))
  end.

(** The body of the [for line in f] loop of [load], from line number [i]
    on.  The object is threaded through: when a line raises, the object
    is returned as the lines before it left it. *)
Fixpoint load_lines (self : t) (i : Z) (ls : list string) : result unit * t :=
  match ls with
  | [] => (Ok tt, self)
  | line :: rest =>
      match split line with
      | [] => (Raise IndexError, self)
      | word :: vals =>
          match Np.floats vals with
          | Raise e => (Raise e, self)
          | Ok vec =>
              match embedding self, vocab self, reverse_vocab self with
              | Some m, Some v, Some rv =>
                  match Np.setitem m i vec with
                  | Raise e => (Raise e, self)
                  | Ok m' =>
                      load_lines
                        (mk (Some m') (Some (sset v word i))
                            (Some (zset rv i word))
                            (oov_init self) (random_state self)
                            (dimensions self))
                        (i + 1) rest
                  end
              | _, _, _ => (Raise TypeError, self)
              end
          end
      end
  end.

(** [load(filepath, encoding)], the file being given by its content. *)
Definition load (self : t) (f : file) : result unit * t :=
  match count_lines f with
  | Raise e => (Raise e, self)
  | Ok n =>
      let self1 :=
        mk (Some (Np.empty n (dimensions self))) (Some []) (Some [])
           (oov_init self) (random_state self) (dimensions self) in
      match f with
      | Unreadable => (Raise OSError, self1)
      | Lines ls => load_lines self1 0 ls
      end
  end.

(** [self.random_state.default_rng()].  [numpy.random.default_rng] is a
    function of the module; a [RandomState] object has no such
    attribute.  The module function builds a generator from fresh
    entropy: the world counts the generators made so far and the count
    names the new one. *)
Definition default_rng (rs : random_state_t) (w : nat) : result nat * nat :=
  match rs with
  | np_random => (Ok w, S w)
  | RandomState _ => (Raise AttributeError, w)
  end.

(** [get(word, include_oov)] *)
Definition get (self : t) (word : string) (include_oov : bool) (w : nat)
  : result (list F) * nat :=
  match vocab self, embedding self with
  | Some v, Some m =>
      match sget v word with
      | Some vocab_index => (Np.getitem m vocab_index, w)
      | None =>
          match oov_init self, include_oov with
          | rand, true =>
              match default_rng (random_state self) w with
              | (Ok g, w') => (Ok (Np.uniform1 g (dimensions self)), w')
              | (Raise e, w') => (Raise e, w')
              end
          | _, _ => (Ok (Np.zeros1 (dimensions self)), w)
          end
      end
  | _, _ => (Raise RuntimeError, w)
  end.
End Defs.
End WordEmbedding.

(** ** class Tokenizer *)

Module Tokenizer.

(** [sorted(items, key=lambda t: t[1], reverse=True)]: a stable sort by
    descending count, as an insertion sort that puts an item in front of
    the first item whose count is not larger. *)
Fixpoint insert_desc (x : string * Z) (l : list (string * Z)) : list (string * Z) :=
  match l with
  | [] => [x]
  | y :: l' => if snd x <? snd y then y :: insert_desc x l' else x :: y :: l'
  end.

Fixpoint sorted_desc (l : list (string * Z)) : list (string * Z) :=
  match l with
  | [] => []
  | x :: l' => insert_desc x (sorted_desc l')
  end.

Record t : Type := mk {
  oov_token : option string;
  n_words : Z;
  vocab : list (string * Z);
  reverse_vocab : list (Z * string);
  words_count : list (string * Z)
}.

(** The second argument of [create_weight_matrix] and what the method
    hands back. *)
Inductive word_embedding_arg {NP : Numpy} : Type :=
| a_WordEmbedding (we : WordEmbedding.t)
| a_other.

Inductive returned {NP : Numpy} : Type :=
| ret_pair (embedding_matrix : Np.ndarray) (out_of_wordembedding : list string)
| ret_word_embedding (we : WordEmbedding.t).

Section Defs.
Context {P : Pipeline}.

(** [Tokenizer(nlp, oov_token)], for [nlp] a [Language] object. *)
Definition init (oov : option string) : t :=
  mk oov (match oov with Some _ => 1 | None => 0 end) [] [] [].

(** One round of the inner loop of [fit]. *)
Definition fit_token (self : t) (token : string) : t :=
  let w := lower token in
  let self1 :=
    if negb (smem (vocab self) w) then
      mk (oov_token self) (n_words self + 1)
         (sset (vocab self) w (n_words self + 1))
         (zset (reverse_vocab self) (n_words self + 1) w)
         (words_count self)
    else self in
  mk (oov_token self1) (n_words self1) (vocab self1) (reverse_vocab self1)
     (match sget (words_count self1) w with
      | None => sset (words_count self1) w 1
      | Some c => sset (words_count self1) w (c + 1)
      end).

Definition fit_text (self : t) (text : string) : t :=
  fold_left fit_token (nlp text) self.

(** [fit(texts)] *)
Definition fit (self : t) (texts : list string) : t :=
  let self0 :=
    match oov_token self with
    | Some o =>
        mk (oov_token self) (n_words self) (sset (vocab self) o 1)
           (zset (reverse_vocab self) 1 o) (words_count self)
    | None => self
    end in
  let self1 := fold_left fit_text texts self0 in
  mk (oov_token self1) (n_words self1) (vocab self1) (reverse_vocab self1)
     (sorted_desc (words_count self1)).

(** The inner loop of [texts_to_sequences] over the tokens of one text. *)
Fixpoint doc_to_sequence (self : t) (doc : list string) : result (list Z) :=
  match doc with
  | [] => Ok []
  | token :: rest =>
      match sget (vocab self) (lower token) with
      | Some i => sequence <- doc_to_sequence self rest ;; Ok (i :: sequence)
      | None =>
          match oov_token self with
          | Some o =>
              match sget (vocab self) o with
              | Some i => sequence <- doc_to_sequence self rest ;; Ok (i :: sequence)
              | None => Raise KeyError
              end
          | None => doc_to_sequence self rest
          end
      end
  end.

(** [texts_to_sequences(texts)] *)
Fixpoint texts_to_sequences (self : t) (texts : list string) : result (list (list Z)) :=
  match texts with
  | [] => Ok []
  | text :: rest =>
      sequence <- doc_to_sequence self (nlp text) ;;
      sequences <- texts_to_sequences self rest ;;
      Ok (sequence :: sequences)
  end.

(** The inner loop of [sequences_to_texts] over one sequence. *)
Fixpoint sequence_to_words (self : t) (sequence : list Z) : list string :=
  match sequence with
  | [] => []
  | element :: rest =>
      match zget (reverse_vocab self) element with
      | Some w => w :: sequence_to_words self rest
      | None =>
          match oov_token self with
          | Some o => o :: sequence_to_words self rest
          | None => sequence_to_words self rest
          end
      end
  end.

(** [sequences_to_texts(sequences)] *)
Definition sequences_to_texts (self : t) (sequences : list (list Z)) : list string :=
  map (fun sequence => String.concat " " (sequence_to_words self sequence)) sequences.
End Defs.

Section Matrix.
Context {NP : Numpy}.

(** The [for word, index in self.vocab.items()] loop of
    [create_weight_matrix]; [w] is the entropy counter. *)
Fixpoint fill_rows (we : WordEmbedding.t) (wv : list (string * Z))
    (items : list (string * Z)) (m : Np.ndarray) (out : list string) (w : nat)
  : result (Np.ndarray * list string) * nat :=
  match items with
  | [] => (Ok (m, out), w)
  | (word, index) :: rest =>
      let out' := if negb (smem wv word) then out ++ [word] else out in
      match WordEmbedding.get we word true w with
      | (Raise e, w') => (Raise e, w')
      | (Ok vec, w') =>
          match Np.setitem m index vec with
          | Raise e => (Raise e, w')
          | Ok m' => fill_rows we wv rest m' out' w'
          end
      end
  end.

(** The body of [create_weight_matrix] up to its [return]: the value of
    [embedding_matrix] and [out_of_wordembedding] once the loop is over. *)
Definition build_matrix (self : t) (we : WordEmbedding.t) (w : nat)
  : result (Np.ndarray * list string) * nat :=
  let dims := WordEmbedding.dimensions we in
  let allocated :=
    match WordEmbedding.oov_init we with
    | WordEmbedding.rand =>
        match WordEmbedding.default_rng (WordEmbedding.random_state we) w with
        | (Raise e, w') => (Raise e, w')
        | (Ok g, w') =>
            (Np.setitem (Np.uniform2 g (n_words self + 1) dims) 0 (Np.zeros1 dims), w')
        end
    | WordEmbedding.zero_init => (Ok (Np.zeros (n_words self + 1) dims), w)
    end in
  match allocated with
  | (Raise e, w') => (Raise e, w')
  | (Ok m, w') =>
      match vocab self, WordEmbedding.vocab we with
      | [], _ => (Ok (m, []), w')
      | _ :: _, None => (Raise TypeError, w')
      | items, Some wv => fill_rows we wv items m [] w'
      end
  end.

(** [create_weight_matrix(word_embedding, return_not_in_wordembedding)] *)
Definition create_weight_matrix (self : t) (word_embedding : word_embedding_arg)
    (return_not_in_wordembedding : bool) (w : nat) : result returned * nat :=
  match word_embedding with
  | a_other => (Raise TypeError, w)
  | a_WordEmbedding we =>
      match build_matrix self we w with
      | (Raise e, w') => (Raise e, w')
      | (Ok (embedding_matrix, out_of_wordembedding), w') =>
          if return_not_in_wordembedding
          then (Ok (ret_pair embedding_matrix out_of_wordembedding), w')
          else (Ok (ret_word_embedding we), w')
      end
  end.
End Matrix.
End Tokenizer.

(** ** Instances for plain ASCII input

    They agree with the Python operations on the inputs used below:
    ASCII words separated by single blanks, decimal numerals. *)

Module Plain.

(** [str.isspace] on the ASCII range: tab to carriage return, the four
    separators 0x1c-0x1f, and blank. *)
Definition is_space (c : ascii) : bool :=
  let n := nat_of_ascii c in
  ((9 <=? n) && (n <=? 13) || (28 <=? n) && (n <=? 32))%nat.

(** [str.ascii_split()] *)
Fixpoint ascii_split (s : string) : list string :=
  match s with
  | EmptyString => []
  | String c s' =>
      if is_space c then ascii_split s'
      else
        match s' with
        | EmptyString => [String c EmptyString]
        | String c' _ =>
            if is_space c' then String c EmptyString :: ascii_split s'
            else
              match ascii_split s' with
              | w :: ws => String c w :: ws
              | [] => [String c EmptyString]
              end
        end
  end.

(** [str.ascii_lower] *)
Definition lower_char (c : ascii) : ascii :=
  let n := nat_of_ascii c in
  if ((65 <=? n) && (n <=? 90))%nat then ascii_of_nat (n + 32) else c.

Fixpoint ascii_lower (s : string) : string :=
  match s with
  | EmptyString => EmptyString
  | String c s' => String (lower_char c) (ascii_lower s')
  end.

Definition digit (c : ascii) : option Z :=
  let n := nat_of_ascii c in
  if ((48 <=? n) && (n <=? 57))%nat then Some (Z.of_nat (n - 48)) else None.

(** [float] on numerals of the form [digits], [digits.digits], with an
    optional leading minus; the value is kept as an exact fraction. *)
Fixpoint decimal (s : string) (seen_dot : bool) (num : Z) (den : positive)
    (any : bool) : option Q :=
  match s with
  | EmptyString => if any then Some (Qmake num den) else None
  | String c s' =>
      if Ascii.eqb c "."%char then
        if seen_dot then None else decimal s' true num den any
      else
        match digit c with
        | Some d =>
            decimal s' seen_dot (10 * num + d)
                    (if seen_dot then (10 * den)%positive else den) true
        | None => None
        end
  end.

Definition decimal_float (s : string) : option Q :=
  match s with
  | String "-"%char s' => option_map Qopp (decimal s' false 0 1 false)
  | _ => decimal s false 0 1 false
  end.

(** A pipeline made by [create_language(whitespace_tokenizer=True)]. *)
#[export] Instance whitespace : Pipeline := {| nlp := ascii_split; lower := ascii_lower |}.

(** Arrays of exact fractions; the sample [k] of generator [g] is an
    arbitrary value of the interval. *)
#[export] Instance numpy : Numpy := {|
  F := Q;
  zero := Qmake 0 1;
  py_float := decimal_float;
  split := ascii_split;
  uniform := fun g k => Qmake (Z.of_nat ((g + k) mod 100) - 50) 100;
  uninit := Qmake 7 1
|}.

End Plain.

(** ** Vocabulary of a corpus, as the specification words it *)

Section Corpus.
Context {P : Pipeline}.

(** The words of a list, each kept at its first occurrence. *)
Fixpoint first_seen (l : list string) : list string :=
  match l with
  | [] => []
  | x :: l' => x :: filter (fun y => negb (String.eqb x y)) (first_seen l')
  end.

(** [ws] numbered consecutively from [k]. *)
Fixpoint enum_from (k : Z) (ws : list string) : list (string * Z) :=
  match ws with
  | [] => []
  | w :: ws' => (w, k) :: enum_from (k + 1) ws'
  end.

(** The lowercase token stream of a text and of a list of texts. *)
Definition tokens (text : string) : list string := map lower (nlp text).
Definition corpus_tokens (texts : list string) : list string := flat_map tokens texts.

(** Successive [fit] calls. *)
Definition fit_all (self : Tokenizer.t) (corpora : list (list string)) : Tokenizer.t :=
  fold_left Tokenizer.fit corpora self.

(** A tokenizer on which [fit] has been called at least once. *)
Definition fitted (oov : option string) (first : list string) (more : list (list string))
  : Tokenizer.t :=
  fit_all (Tokenizer.init oov) (first :: more).

(** What a text reads like after encoding and decoding, in the words of
    the specification: its lowercase tokens joined by blanks, a token
    outside the vocabulary being dropped, or replaced by the OOV token
    when there is one. *)
Definition round_trip_text (self : Tokenizer.t) (text : string) : string :=
  String.concat " "
    (flat_map
       (fun w =>
          if smem (Tokenizer.vocab self) w then [w]
          else match Tokenizer.oov_token self with
               | Some o => [o]
               | None => []
               end)
       (tokens text)).

(** Adding a word to the list of known words, as the loop of [fit] does. *)
Definition learn (ws : list string) (w : string) : list string :=
  if existsb (String.eqb w) ws then ws else ws ++ [w].

(** The words registered without looking at the corpus. *)
Definition reserved (oov : option string) : list string :=
  match oov with Some o => [o] | None => [] end.

(** The words of the vocabulary in index order: the OOV token if there is
    one, then the other words of the corpus by first occurrence. *)
Definition vocabulary_words (oov : option string) (toks : list string) : list string :=
  reserved oov
  ++ filter (fun w => negb (existsb (String.eqb w) (reserved oov))) (first_seen toks).

Definition flip (p : string * Z) : Z * string := (snd p, fst p).

(** The vocabulary lists the words [ws] with indices 1, 2, ... and the
    reverse vocabulary is its mirror image. *)
Record vocab_inv (self : Tokenizer.t) (ws : list string) : Prop := {
  inv_nodup : NoDup ws;
  inv_vocab : Tokenizer.vocab self = enum_from 1 ws;
  inv_reverse : Tokenizer.reverse_vocab self = map flip (enum_from 1 ws);
  inv_n_words : Tokenizer.n_words self = Z.of_nat (length ws)
}.

(** Total of the occurrence counts of a frequency table. *)
Definition total_count (wc : list (string * Z)) : Z :=
  fold_right (fun p acc => snd p + acc) 0 wc.
End Corpus.

(** What a line of an embedding file must look like according to the
    specification: a word followed by exactly [dims] numeric fields. *)
Section Lines.
Context {NP : Numpy}.

Definition numeric (field : string) : bool :=
  match py_float field with Some _ => true | None => false end.

Definition exact_fields (dims : Z) (line : string) : bool :=
  match split line with
  | [] => false
  | _ :: fields => forallb numeric fields && (Z.of_nat (length fields) =? dims)
  end.

(** What [load] accepts: as above, or a word followed by a single numeric
    field. *)
Definition accepted_line (dims : Z) (line : string) : bool :=
  match split line with
  | [] => false
  | _ :: fields =>
      forallb numeric fields
      && ((Z.of_nat (length fields) =? dims) || (Z.of_nat (length fields) =? 1))
  end.

(** The exception a line that is not accepted raises: a blank line has no
    first field, anything else fails in [float] or in the row assignment. *)
Definition line_error (line : string) : exn :=
  match split line with
  | [] => IndexError
  | _ :: _ => ValueError
  end.

(** What an accepted line contributes to an array of width [cols]: its
    word and the row written for it. *)
Definition parsed_line (cols : nat) (line : string) : option (string * list F) :=
  match split line with
  | [] => None
  | word :: fields =>
      match Np.floats fields with
      | Raise _ => None
      | Ok vec =>
          if (length vec =? cols)%nat then Some (word, vec)
          else match vec with
               | [x] => Some (word, repeat x cols)
               | _ => None
               end
      end
  end.

(** A store whose three fields are assigned, the array having [n] rows
    of the store's dimensionality. *)
Definition allocated (we : WordEmbedding.t) (n : Z) : Prop :=
  exists m v rv,
    WordEmbedding.embedding we = Some m
    /\ WordEmbedding.vocab we = Some v
    /\ WordEmbedding.reverse_vocab we = Some rv
    /\ Np.nrows m = n
    /\ Np.ncols m = Z.to_nat (WordEmbedding.dimensions we).

(** Two stores that hold the same vocabulary and the same first [i] rows,
    in arrays that may differ in their number of rows. *)
Definition same_prefix (i : nat) (a b : WordEmbedding.t) : Prop :=
  WordEmbedding.vocab a = WordEmbedding.vocab b
  /\ WordEmbedding.reverse_vocab a = WordEmbedding.reverse_vocab b
  /\ WordEmbedding.dimensions a = WordEmbedding.dimensions b
  /\ exists ma mb,
       WordEmbedding.embedding a = Some ma
       /\ WordEmbedding.embedding b = Some mb
       /\ firstn i (Np.rows ma) = firstn i (Np.rows mb).

(** A store whose array has rows of the store's dimensionality and whose
    vocabulary points into the array. *)
Definition well_loaded (we : WordEmbedding.t) : Prop :=
  exists m v,
    WordEmbedding.embedding we = Some m
    /\ WordEmbedding.vocab we = Some v
    /\ Np.ncols m = Z.to_nat (WordEmbedding.dimensions we)
    /\ Forall (fun r => length r = Np.ncols m) (Np.rows m)
    /\ Forall (fun p => 0 <= snd p < Np.nrows m) v.

(** The three fields [load] assigns. *)
Definition observable (we : WordEmbedding.t)
  : option Np.ndarray * option (list (string * Z)) * option (list (Z * string)) :=
  (WordEmbedding.embedding we, WordEmbedding.vocab we, WordEmbedding.reverse_vocab we).

(** The store after a series of [load] attempts. *)
Definition load_all (we : WordEmbedding.t) (files : list WordEmbedding.file)
  : WordEmbedding.t :=
  fold_left (fun self f => snd (WordEmbedding.load self f)) files we.
End Lines.

(** ** Worked examples

    Concrete objects over the plain instances, used to evaluate the code
    at given inputs. *)

Module Examples.

(** [Tokenizer(nlp)] fitted on one text. *)
Definition tokenizer_cat : Tokenizer.t :=
  fitted (P := Plain.whitespace) None ["The cat sat"] [].

(** [WordEmbedding(50, oov_init='zero')] *)
Definition store_zero : WordEmbedding.t (NP := Plain.numpy) :=
  WordEmbedding.mk None None None WordEmbedding.zero_init WordEmbedding.np_random 50.

(** [WordEmbedding(50, oov_init='rand')] *)
Definition store_rand : WordEmbedding.t (NP := Plain.numpy) :=
  WordEmbedding.mk None None None WordEmbedding.rand WordEmbedding.np_random 50.

(** [WordEmbedding(50, oov_init='rand', random_state=42)] *)
Definition store_seeded : WordEmbedding.t (NP := Plain.numpy) :=
  WordEmbedding.mk None None None WordEmbedding.rand (WordEmbedding.RandomState 42) 50.

(** A file with one line, holding a single value, and a file whose
    second line has no value at all. *)
Definition one_value_file : WordEmbedding.file := WordEmbedding.Lines ["the 0.5"].
Definition broken_file : WordEmbedding.file := WordEmbedding.Lines ["the 0.5"; "cat"].

(** The stores after [load]. *)
Definition store_zero_loaded : WordEmbedding.t (NP := Plain.numpy) :=
  Eval vm_compute in snd (WordEmbedding.load store_zero one_value_file).
Definition store_rand_loaded : WordEmbedding.t (NP := Plain.numpy) :=
  Eval vm_compute in snd (WordEmbedding.load store_rand one_value_file).
Definition store_seeded_loaded : WordEmbedding.t (NP := Plain.numpy) :=
  Eval vm_compute in snd (WordEmbedding.load store_seeded one_value_file).
Definition store_zero_broken : WordEmbedding.t (NP := Plain.numpy) :=
  Eval vm_compute in snd (WordEmbedding.load store_zero broken_file).

(** The matrices [create_weight_matrix] builds for [tokenizer_cat]. *)
Definition matrix_of (r : result (Np.ndarray (NP := Plain.numpy) * list string) * nat)
  : Np.ndarray (NP := Plain.numpy) :=
  match r with
  | (Ok (m, _), _) => m
  | (Raise _, _) => Np.mk 0 []
  end.
Definition matrix_zero : Np.ndarray (NP := Plain.numpy) :=
  Eval vm_compute in matrix_of (Tokenizer.build_matrix tokenizer_cat store_zero_loaded 0).
Definition matrix_rand : Np.ndarray (NP := Plain.numpy) :=
  Eval vm_compute in matrix_of (Tokenizer.build_matrix tokenizer_cat store_rand_loaded 0).

End Examples.

(** ** Notions used to describe the rest of the code *)

(** The entry a frequency table holds for a word seen [n] times. *)
Definition count_entry (n : nat) : option Z :=
  match n with
  | O => None
  | S _ => Some (Z.of_nat n)
  end.

(** How often a word occurs in a token stream. *)
Definition occurrences (toks : list string) (w : string) : nat :=
  count_occ string_dec toks w.

(** A frequency table that lists each word of [toks] once, with the
    number of its occurrences. *)
Definition counts (wc : list (string * Z)) (toks : list string) : Prop :=
  NoDup (map fst wc)
  /\ forall w, sget wc w = count_entry (occurrences toks w).

(** Counts do not increase along the table. *)
Definition by_descending_count (wc : list (string * Z)) : Prop :=
  Sorted (fun a b => snd b <= snd a) wc.

Section DescribingLines.
Context {NP : Numpy}.

(** The leading word of a line and the row [load] stores for it in an
    array of width [cols]. *)
Definition line_word (line : string) : string :=
  match split line with
  | [] => EmptyString
  | word :: _ => word
  end.

Definition line_row (cols : nat) (line : string) : list F :=
  match parsed_line cols line with
  | Some (_, row) => row
  | None => []
  end.

(** The words of a vocabulary that a store does not hold, in order. *)
Definition missing_words (items : list (string * Z)) (wv : list (string * Z))
  : list string :=
  filter (fun word => negb (smem wv word)) (map fst items).
End DescribingLines.

(** * Properties *)

(** ** Dictionaries *)

Section DictFacts.
Context {K V : Type} (eqb : K -> K -> bool).
Hypothesis eqb_eq : forall a b, eqb a b = true <-> a = b.

Lemma eqb_refl' (a : K) : eqb a a = true.
Proof. now apply eqb_eq. Qed.

Lemma eqb_neq' (a b : K) : a <> b -> eqb a b = false.
Proof.
  intros Hne. destruct (eqb a b) eqn:E; [|reflexivity].
  apply eqb_eq in E. contradiction.
Qed.

Lemma get_set_same (d : list (K * V)) k v : Dict.get eqb (Dict.set eqb d k v) k = Some v.
Proof.
  induction d as [|[k' v'] d IH]; simpl.
  - now rewrite eqb_refl'.
  - destruct (eqb k' k) eqn:E; simpl; rewrite E; auto.
Qed.

Lemma get_set_other (d : list (K * V)) k k' v :
  k <> k' -> Dict.get eqb (Dict.set eqb d k v) k' = Dict.get eqb d k'.
Proof.
  intros Hne. induction d as [|[k0 v0] d IH]; simpl.
  - now rewrite eqb_neq'.
  - destruct (eqb k0 k) eqn:E; simpl.
    + apply eqb_eq in E. subst k0. now rewrite eqb_neq'.
    + now rewrite IH.
Qed.

Lemma set_absent (d : list (K * V)) k v :
  Dict.get eqb d k = None -> Dict.set eqb d k v = d ++ [(k, v)].
Proof.
  induction d as [|[k' v'] d IH]; simpl; intros H; [reflexivity|].
  destruct (eqb k' k); [discriminate|]. now rewrite IH.
Qed.

Lemma set_same_value (d : list (K * V)) k v :
  Dict.get eqb d k = Some v -> Dict.set eqb d k v = d.
Proof.
  induction d as [|[k' v'] d IH]; simpl; intros H; [discriminate|].
  destruct (eqb k' k); [now inversion H | now rewrite IH].
Qed.

Lemma get_In (d : list (K * V)) k v : Dict.get eqb d k = Some v -> In (k, v) d.
Proof.
  induction d as [|[k' v'] d IH]; simpl; intros H; [discriminate|].
  destruct (eqb k' k) eqn:E.
  - apply eqb_eq in E. inversion H. subst. now left.
  - right. auto.
Qed.

Lemma In_get (d : list (K * V)) k v :
  NoDup (map fst d) -> In (k, v) d -> Dict.get eqb d k = Some v.
Proof.
  induction d as [|[k' v'] d IH]; simpl; intros Hnd Hin; [contradiction|].
  inversion Hnd as [|? ? Hnotin Hnd']; subst.
  destruct Hin as [Heq | Hin].
  - inversion Heq; subst. now rewrite eqb_refl'.
  - destruct (eqb k' k) eqn:E.
    + apply eqb_eq in E. subst k'. exfalso. apply Hnotin.
      change k with (fst (k, v)). now apply in_map.
    + auto.
Qed.
End DictFacts.

Lemma sget_set_same {V} (d : list (string * V)) k v : sget (sset d k v) k = Some v.
Proof. apply get_set_same, String.eqb_eq. Qed.

Lemma sget_set_other {V} (d : list (string * V)) k k' v :
  k <> k' -> sget (sset d k v) k' = sget d k'.
Proof. apply get_set_other, String.eqb_eq. Qed.

(** ** Numbered word lists *)

Lemma enum_from_app k ws w :
  enum_from k (ws ++ [w]) = enum_from k ws ++ [(w, k + Z.of_nat (length ws))].
Proof.
  revert k. induction ws as [|x ws IH]; intros k; cbn [enum_from app length].
  - now rewrite Z.add_0_r.
  - rewrite IH, Nat2Z.inj_succ.
    now replace (k + Z.succ (Z.of_nat (length ws))) with (k + 1 + Z.of_nat (length ws)) by lia.
Qed.

Lemma enum_from_length k ws : length (enum_from k ws) = length ws.
Proof. revert k. induction ws; intros; simpl; auto. Qed.

Lemma enum_from_fst k ws : map fst (enum_from k ws) = ws.
Proof. revert k. induction ws; intros; simpl; f_equal; auto. Qed.

Lemma smem_enum_from k ws w :
  smem (enum_from k ws) w = existsb (String.eqb w) ws.
Proof.
  unfold Dict.mem. revert k. induction ws as [|x ws IH]; intros k; simpl; [reflexivity|].
  rewrite (String.eqb_sym w x). destruct (String.eqb x w); simpl; auto.
Qed.

Lemma sget_enum_from_range k ws w i :
  sget (enum_from k ws) w = Some i -> k <= i < k + Z.of_nat (length ws).
Proof.
  revert k. induction ws as [|x ws IH]; intros k; simpl; [discriminate|].
  destruct (String.eqb x w).
  - intros H. inversion H. lia.
  - intros H. apply IH in H. lia.
Qed.

Lemma sget_enum_from_In k ws w i : sget (enum_from k ws) w = Some i -> In w ws.
Proof.
  intros H. apply (get_In _ String.eqb_eq) in H.
  rewrite <- (enum_from_fst k ws). change w with (fst (w, i)). now apply in_map.
Qed.

Lemma In_sget_enum_from k ws w : In w ws -> exists i, sget (enum_from k ws) w = Some i.
Proof.
  revert k. induction ws as [|x ws IH]; intros k; simpl; [contradiction|].
  intros [-> | Hin].
  - rewrite String.eqb_refl. eauto.
  - destruct (String.eqb x w); eauto.
Qed.

Lemma sget_enum_from_nth k ws w i :
  sget (enum_from k ws) w = Some i -> nth_error ws (Z.to_nat (i - k)) = Some w.
Proof.
  revert k. induction ws as [|x ws IH]; intros k; simpl; [discriminate|].
  destruct (String.eqb x w) eqn:E.
  - intros H. inversion H. apply String.eqb_eq in E. subst.
    now rewrite Z.sub_diag.
  - intros H. pose proof (sget_enum_from_range _ _ _ _ H) as Hr.
    apply IH in H.
    replace (Z.to_nat (i - k)) with (S (Z.to_nat (i - (k + 1)))) by lia.
    exact H.
Qed.

Lemma nth_sget_enum_from k ws n w :
  NoDup ws -> nth_error ws n = Some w ->
  sget (enum_from k ws) w = Some (k + Z.of_nat n).
Proof.
  revert k n. induction ws as [|x ws IH]; intros k n Hnd Hn.
  - destruct n; discriminate.
  - inversion Hnd as [|? ? Hnotin Hnd']; subst. destruct n as [|n]; simpl in *.
    + inversion Hn. subst. rewrite String.eqb_refl. f_equal. lia.
    + destruct (String.eqb x w) eqn:E.
      * apply String.eqb_eq in E. subst. exfalso. apply Hnotin.
        eapply nth_error_In; eauto.
      * rewrite (IH (k + 1) n Hnd' Hn). f_equal. lia.
Qed.

Lemma zget_flip_enum_from_out k ws i :
  i < k \/ k + Z.of_nat (length ws) <= i ->
  zget (map flip (enum_from k ws)) i = None.
Proof.
  revert k. induction ws as [|x ws IH]; intros k Hi; simpl; [reflexivity|].
  simpl in Hi. destruct (Z.eqb_spec k i); [lia|]. apply IH. lia.
Qed.

Lemma zget_flip_enum_from k ws w i :
  sget (enum_from k ws) w = Some i -> zget (map flip (enum_from k ws)) i = Some w.
Proof.
  revert k. induction ws as [|x ws IH]; intros k; simpl; [discriminate|].
  destruct (String.eqb x w) eqn:E.
  - intros H. inversion H. subst. rewrite Z.eqb_refl.
    apply String.eqb_eq in E. now subst.
  - intros H. pose proof (sget_enum_from_range _ _ _ _ H) as Hr.
    destruct (Z.eqb_spec k i); [lia|]. now apply IH.
Qed.

Lemma zget_flip_enum_from_inv k ws w i :
  zget (map flip (enum_from k ws)) i = Some w -> k <= i < k + Z.of_nat (length ws).
Proof.
  revert k. induction ws as [|x ws IH]; intros k; simpl; [discriminate|].
  destruct (Z.eqb_spec k i).
  - intros _. lia.
  - intros H. apply IH in H. lia.
Qed.

Lemma sget_enum_from_inj k ws w1 w2 i :
  sget (enum_from k ws) w1 = Some i -> sget (enum_from k ws) w2 = Some i -> w1 = w2.
Proof.
  intros H1 H2. apply zget_flip_enum_from in H1, H2. congruence.
Qed.

Lemma enum_from_onto k ws i :
  NoDup ws -> k <= i < k + Z.of_nat (length ws) ->
  exists w, sget (enum_from k ws) w = Some i.
Proof.
  intros Hnd Hi.
  destruct (nth_error ws (Z.to_nat (i - k))) as [w|] eqn:E.
  - exists w. rewrite (nth_sget_enum_from k ws _ w Hnd E). f_equal. lia.
  - apply nth_error_None in E. lia.
Qed.

(** ** Learning words in order of first occurrence *)

Lemma existsb_eqb_In w ws : existsb (String.eqb w) ws = true <-> In w ws.
Proof.
  rewrite existsb_exists. split.
  - intros [x [Hin E]]. apply String.eqb_eq in E. now subst.
  - intros Hin. exists w. split; [assumption | apply String.eqb_refl].
Qed.

Lemma existsb_eqb_not_In w ws : existsb (String.eqb w) ws = false <-> ~ In w ws.
Proof.
  rewrite <- existsb_eqb_In. destruct (existsb (String.eqb w) ws); split; intros H;
    try reflexivity; try discriminate; try (intro; discriminate); now exfalso.
Qed.

Lemma learn_NoDup ws w : NoDup ws -> NoDup (learn ws w).
Proof.
  intros Hnd. unfold learn. destruct (existsb (String.eqb w) ws) eqn:E; [assumption|].
  apply existsb_eqb_not_In in E. apply NoDup_app; repeat split; auto.
  - constructor; [intros [] | constructor].
  - intros x Hx [<- | []]. contradiction.
Qed.

Lemma learn_prefix ws w : exists tail, learn ws w = ws ++ tail.
Proof.
  unfold learn. destruct (existsb (String.eqb w) ws).
  - exists []. now rewrite app_nil_r.
  - now exists [w].
Qed.

Lemma filter_filter_absorb {A} (p q : A -> bool) (l : list A) :
  (forall x, p x = true -> q x = true) ->
  filter p (filter q l) = filter p l.
Proof.
  intros Hpq. induction l as [|x l IH]; simpl; [reflexivity|].
  destruct (q x) eqn:Eq; simpl.
  - destruct (p x); now rewrite IH.
  - destruct (p x) eqn:Ep; [apply Hpq in Ep; congruence | assumption].
Qed.

Lemma filter_all {A} (p : A -> bool) (l : list A) :
  (forall x, p x = true) -> filter p l = l.
Proof.
  intros Hp. induction l as [|x l IH]; simpl; [reflexivity|].
  now rewrite Hp, IH.
Qed.

(** Folding [learn] over a token stream appends, to the words already
    known, the new words of the stream in order of first occurrence. *)
Lemma fold_learn_first_seen toks ws :
  fold_left learn toks ws
  = ws ++ filter (fun w => negb (existsb (String.eqb w) ws)) (first_seen toks).
Proof.
  revert ws. induction toks as [|t toks IH]; intros ws; simpl.
  - now rewrite app_nil_r.
  - rewrite IH. unfold learn. destruct (existsb (String.eqb t) ws) eqn:E; simpl.
    + f_equal. symmetry. apply filter_filter_absorb. intros x Hx.
      destruct (String.eqb_spec t x) as [<- | _]; [|reflexivity].
      rewrite E in Hx. discriminate.
    + rewrite <- app_assoc. simpl. do 2 f_equal.
      clear IH. induction (first_seen toks) as [|y l IHl]; simpl; [reflexivity|].
      rewrite existsb_app. simpl. rewrite orb_false_r, (String.eqb_sym y t).
      destruct (String.eqb t y) eqn:Ety; simpl.
      * rewrite orb_true_r. simpl. exact IHl.
      * rewrite orb_false_r. destruct (existsb (String.eqb y) ws); simpl;
          [exact IHl | now rewrite IHl].
Qed.

Lemma fold_learn_NoDup toks ws : NoDup ws -> NoDup (fold_left learn toks ws).
Proof.
  revert ws. induction toks as [|t toks IH]; intros ws Hnd; simpl; [assumption|].
  apply IH. now apply learn_NoDup.
Qed.

Lemma fold_learn_In toks ws w :
  In w (fold_left learn toks ws) <-> In w ws \/ In w toks.
Proof.
  revert ws. induction toks as [|t toks IH]; intros ws; simpl.
  - tauto.
  - rewrite IH. unfold learn. destruct (existsb (String.eqb t) ws) eqn:E.
    + apply existsb_eqb_In in E. split; [tauto|].
      intros [H | [<- | H]]; tauto.
    + rewrite in_app_iff. simpl. tauto.
Qed.

(** ** The vocabulary built by [fit] *)

Section TokenizerFacts.
Context {P : Pipeline}.

Lemma fit_token_oov_token self token :
  Tokenizer.oov_token (Tokenizer.fit_token self token) = Tokenizer.oov_token self.
Proof.
  unfold Tokenizer.fit_token.
  now destruct (negb (smem (Tokenizer.vocab self) (lower token))).
Qed.

Lemma fit_token_inv self ws token :
  vocab_inv self ws ->
  vocab_inv (Tokenizer.fit_token self token) (learn ws (lower token)).
Proof.
  intros [Hnd Hv Hr Hn]. pose proof (learn_NoDup ws (lower token) Hnd) as Hnd'.
  unfold Tokenizer.fit_token, learn in *. rewrite Hv, smem_enum_from.
  destruct (existsb (String.eqb (lower token)) ws) eqn:E; simpl.
  - now constructor.
  - constructor; simpl; auto.
    + rewrite Hn, enum_from_app, (set_absent String.eqb).
      * now rewrite (Z.add_comm 1).
      * pose proof (smem_enum_from 1 ws (lower token)) as Hm.
        unfold Dict.mem in Hm. rewrite E in Hm.
        now destruct (sget (enum_from 1 ws) (lower token)).
    + rewrite Hr, Hn, enum_from_app, map_app, (set_absent Z.eqb).
      * cbn [map]. unfold flip at 3. cbn [fst snd]. now rewrite (Z.add_comm 1).
      * apply zget_flip_enum_from_out. lia.
    + rewrite Hn, length_app. simpl. lia.
Qed.

Lemma fold_fit_token_inv toks self ws :
  vocab_inv self ws ->
  vocab_inv (fold_left Tokenizer.fit_token toks self)
            (fold_left learn (map lower toks) ws).
Proof.
  revert self ws. induction toks as [|t toks IH]; intros self ws H; simpl; [assumption|].
  apply IH. now apply fit_token_inv.
Qed.

Lemma fold_fit_token_oov_token toks self :
  Tokenizer.oov_token (fold_left Tokenizer.fit_token toks self) = Tokenizer.oov_token self.
Proof.
  revert self. induction toks as [|t toks IH]; intros self; simpl; [reflexivity|].
  now rewrite IH, fit_token_oov_token.
Qed.

Lemma fold_fit_text_inv texts self ws :
  vocab_inv self ws ->
  vocab_inv (fold_left Tokenizer.fit_text texts self)
            (fold_left learn (corpus_tokens texts) ws).
Proof.
  revert self ws. induction texts as [|text texts IH]; intros self ws H; simpl; [assumption|].
  rewrite fold_left_app. apply IH. now apply fold_fit_token_inv.
Qed.

Lemma fold_fit_text_oov_token texts self :
  Tokenizer.oov_token (fold_left Tokenizer.fit_text texts self) = Tokenizer.oov_token self.
Proof.
  revert self. induction texts as [|t texts IH]; intros self; simpl; [reflexivity|].
  rewrite IH. apply fold_fit_token_oov_token.
Qed.

Lemma fit_oov_token self texts :
  Tokenizer.oov_token (Tokenizer.fit self texts) = Tokenizer.oov_token self.
Proof.
  unfold Tokenizer.fit. cbn [Tokenizer.oov_token]. rewrite fold_fit_text_oov_token.
  destruct (Tokenizer.oov_token self) eqn:E; [reflexivity | exact E].
Qed.

(** The first [fit] on a new tokenizer registers the OOV token, then
    learns the corpus. *)
Lemma fit_init_inv oov texts :
  vocab_inv (Tokenizer.fit (Tokenizer.init oov) texts)
            (fold_left learn (corpus_tokens texts) (reserved oov)).
Proof.
  unfold Tokenizer.fit.
  match goal with
  | |- vocab_inv (Tokenizer.mk _ _ _ _ (Tokenizer.sorted_desc (Tokenizer.words_count ?s))) _ =>
      assert (H : vocab_inv s (fold_left learn (corpus_tokens texts) (reserved oov)))
  end.
  - apply fold_fit_text_inv. destruct oov as [o|]; simpl.
    + constructor; simpl; auto. constructor; [intros [] | constructor].
    + constructor; simpl; auto. constructor.
  - destruct H as [Hnd Hv Hr Hn]. now constructor.
Qed.

(** A later [fit] finds the OOV token registered and only learns. *)
Lemma fit_inv self ws texts :
  vocab_inv self ws ->
  (exists tail, ws = reserved (Tokenizer.oov_token self) ++ tail) ->
  vocab_inv (Tokenizer.fit self texts) (fold_left learn (corpus_tokens texts) ws).
Proof.
  intros Hinv [tail Hws]. unfold Tokenizer.fit.
  match goal with
  | |- vocab_inv (Tokenizer.mk _ _ _ _ (Tokenizer.sorted_desc (Tokenizer.words_count ?s))) _ =>
      assert (H : vocab_inv s (fold_left learn (corpus_tokens texts) ws))
  end.
  - apply fold_fit_text_inv. destruct (Tokenizer.oov_token self) as [o|] eqn:Eo; [|assumption].
    destruct Hinv as [Hnd Hv Hr Hn]. simpl in Hws. subst ws.
    constructor; simpl; auto.
    + rewrite Hv. simpl. now rewrite String.eqb_refl.
    + rewrite Hr. reflexivity.
  - destruct H as [Hnd Hv Hr Hn]. now constructor.
Qed.

Lemma fit_all_inv cs self toks oov :
  Tokenizer.oov_token self = oov ->
  vocab_inv self (fold_left learn toks (reserved oov)) ->
  vocab_inv (fit_all self cs)
            (fold_left learn (toks ++ corpus_tokens (concat cs)) (reserved oov))
  /\ Tokenizer.oov_token (fit_all self cs) = oov.
Proof.
  revert self toks. induction cs as [|c cs IH]; intros self toks Ho Hinv; simpl.
  - now rewrite app_nil_r.
  - unfold corpus_tokens. rewrite flat_map_app, app_assoc.
    apply IH.
    + now rewrite fit_oov_token.
    + rewrite fold_left_app. apply fit_inv; [assumption|].
      rewrite Ho, fold_learn_first_seen. eauto.
Qed.

(** After at least one [fit], the tokenizer lists the vocabulary words
    of everything it was fitted on. *)
Lemma fitted_inv oov c cs :
  vocab_inv (fitted oov c cs) (vocabulary_words oov (corpus_tokens (c ++ concat cs)))
  /\ Tokenizer.oov_token (fitted oov c cs) = oov.
Proof.
  unfold fitted, vocabulary_words. simpl. rewrite <- fold_learn_first_seen.
  unfold corpus_tokens. rewrite flat_map_app.
  apply fit_all_inv.
  - now rewrite fit_oov_token.
  - apply fit_init_inv.
Qed.
End TokenizerFacts.

(** ** Indices of the fitted vocabulary *)

Lemma vocabulary_words_None toks : vocabulary_words None toks = first_seen toks.
Proof. unfold vocabulary_words. simpl. now apply filter_all. Qed.

Lemma vocabulary_words_Some o toks :
  vocabulary_words (Some o) toks
  = o :: filter (fun w => negb (String.eqb w o)) (first_seen toks).
Proof.
  unfold vocabulary_words. simpl. f_equal. apply filter_ext.
  intros w. now rewrite orb_false_r.
Qed.

(** C5, as amended.  After one or more [fit] calls the vocabulary lists
    every distinct lowercase token of the corpus exactly once, with
    pairwise different indices that fill the range from 1 to [n_words].
    Without an OOV token the words are numbered from 1 in order of first
    occurrence; with an OOV token [o], [o] has index 1 and the corpus
    words other than [o] are numbered from 2 in order of first occurrence
    (a corpus token equal to [o] shares index 1). *)
Theorem fit_numbers_words_in_first_seen_order {P : Pipeline}
    (oov : option string) (c : list string) (cs : list (list string)) :
  let self := fitted oov c cs in
  let toks := corpus_tokens (c ++ concat cs) in
  let voc := Tokenizer.vocab self in
  match oov with
  | None => voc = enum_from 1 (first_seen toks)
  | Some o =>
      voc = (o, 1) :: enum_from 2 (filter (fun w => negb (String.eqb w o)) (first_seen toks))
  end
  /\ NoDup (map fst voc)
  /\ (forall w, In w toks -> exists i, sget voc w = Some i)
  /\ (forall w1 w2 i, sget voc w1 = Some i -> sget voc w2 = Some i -> w1 = w2)
  /\ (forall i, (exists w, sget voc w = Some i) <-> 1 <= i <= Tokenizer.n_words self)
  /\ Tokenizer.n_words self = Z.of_nat (length voc).
Proof.
  intros self toks voc.
  destruct (fitted_inv oov c cs) as [[Hnd Hv Hr Hn] Ho].
  fold self toks in Hnd, Hv, Hr, Hn, Ho. fold voc in Hv.
  repeat split.
  - destruct oov as [o|].
    + now rewrite Hv, vocabulary_words_Some.
    + now rewrite Hv, vocabulary_words_None.
  - now rewrite Hv, enum_from_fst.
  - intros w Hw. rewrite Hv. apply In_sget_enum_from.
    unfold vocabulary_words. rewrite <- fold_learn_first_seen.
    apply fold_learn_In. now right.
  - intros w1 w2 i. rewrite Hv. apply sget_enum_from_inj.
  - destruct H as [w Hw]. rewrite Hv in Hw. apply sget_enum_from_range in Hw. lia.
  - destruct H as [w Hw]. rewrite Hv in Hw. apply sget_enum_from_range in Hw. lia.
  - intros Hi. rewrite Hv. apply enum_from_onto; [assumption | lia].
  - now rewrite Hn, Hv, enum_from_length.
Qed.

(** C5, as stated, fails when the corpus contains the OOV token itself:
    with OOV token "unk" and the corpus "a unk b", the second distinct
    corpus word is "unk", which has index 1 rather than 3, so the corpus
    words are not numbered from 2 in order of first occurrence. *)
Lemma oov_token_in_corpus_breaks_first_seen_numbering :
  let self := fitted (P := Plain.whitespace) (Some "unk") ["a unk b"] [] in
  let toks := corpus_tokens (P := Plain.whitespace) ["a unk b"] in
  ~ (forall k w, nth_error (first_seen toks) k = Some w ->
                 sget (Tokenizer.vocab self) w = Some (2 + Z.of_nat k)).
Proof.
  intros self toks H.
  assert (Hsecond : nth_error (first_seen toks) 1 = Some "unk")
    by (vm_compute; reflexivity).
  assert (Hindex : sget (Tokenizer.vocab self) "unk" = Some 1)
    by (vm_compute; reflexivity).
  specialize (H 1%nat "unk" Hsecond). rewrite Hindex in H. discriminate.
Qed.

(** ** Encoding and decoding *)

Section Codec.
Context {P : Pipeline}.

Lemma doc_round_trip self ws doc :
  vocab_inv self ws ->
  (forall o, Tokenizer.oov_token self = Some o -> In o ws) ->
  exists sequence,
    Tokenizer.doc_to_sequence self doc = Ok sequence
    /\ Tokenizer.sequence_to_words self sequence
       = flat_map
           (fun w =>
              if smem (Tokenizer.vocab self) w then [w]
              else match Tokenizer.oov_token self with
                   | Some o => [o]
                   | None => []
                   end)
           (map lower doc).
Proof.
  intros [Hnd Hv Hr Hn] Hoov.
  assert (Hback : forall w i, sget (Tokenizer.vocab self) w = Some i ->
                              zget (Tokenizer.reverse_vocab self) i = Some w).
  { intros w i. rewrite Hv, Hr. apply zget_flip_enum_from. }
  induction doc as [|token doc [sequence [Henc Hdec]]]; simpl.
  - now exists [].
  - unfold Dict.mem at 1.
    destruct (sget (Tokenizer.vocab self) (lower token)) as [i|] eqn:Ei.
    + exists (i :: sequence). rewrite Henc. split; [reflexivity|]. simpl.
      now rewrite (Hback _ _ Ei), Hdec.
    + destruct (Tokenizer.oov_token self) as [o|] eqn:Eo.
      * assert (Hin : In o ws) by now apply Hoov.
        destruct (In_sget_enum_from 1 ws o Hin) as [i Hi]. rewrite <- Hv in Hi.
        rewrite Hi. exists (i :: sequence). rewrite Henc.
        split; [reflexivity|]. simpl.
        now rewrite (Hback _ _ Hi), Hdec.
      * exists sequence. now rewrite Henc.
Qed.
End Codec.

(** C4.  On a fitted tokenizer, encoding any list of texts succeeds, and
    decoding the result gives, text by text, the lowercase tokens of the
    text joined by single blanks, where a token outside the vocabulary is
    dropped if no OOV token is configured and replaced by the OOV token
    if one is. *)
Theorem sequences_to_texts_of_texts_to_sequences {P : Pipeline}
    (oov : option string) (c : list string) (cs : list (list string))
    (T : list string) :
  let self := fitted oov c cs in
  exists sequences,
    Tokenizer.texts_to_sequences self T = Ok sequences
    /\ Tokenizer.sequences_to_texts self sequences = map (round_trip_text self) T.
Proof.
  intros self. destruct (fitted_inv oov c cs) as [Hinv Ho]. fold self in Hinv, Ho.
  assert (Hoov : forall o, Tokenizer.oov_token self = Some o ->
                           In o (vocabulary_words oov (corpus_tokens (c ++ concat cs)))).
  { intros o Eo. rewrite Ho in Eo. rewrite Eo, vocabulary_words_Some. now left. }
  induction T as [|text T [sequences [Henc Hdec]]]; simpl.
  - now exists [].
  - destruct (doc_round_trip self _ (nlp text) Hinv Hoov) as [sequence [Hs Hw]].
    exists (sequence :: sequences). rewrite Hs. simpl. rewrite Henc. simpl.
    split; [reflexivity|]. unfold Tokenizer.sequences_to_texts in *. simpl.
    rewrite Hdec. f_equal. unfold round_trip_text, tokens. now rewrite Hw.
Qed.

(** ** The frequency table *)

Lemma total_count_app wc wc' : total_count (wc ++ wc') = total_count wc + total_count wc'.
Proof.
  unfold total_count. induction wc as [|p wc IH]; simpl; [reflexivity|].
  rewrite IH. lia.
Qed.

(** Counting one more occurrence of [w] raises the total by one, whether
    [w] is new to the table or not. *)
Lemma total_count_bump wc w :
  total_count
    (match sget wc w with
     | None => sset wc w 1
     | Some c => sset wc w (c + 1)
     end)
  = total_count wc + 1.
Proof.
  induction wc as [|[k v] wc IH]; simpl; [reflexivity|].
  destruct (String.eqb k w) eqn:E; simpl.
  - unfold total_count. simpl. lia.
  - destruct (sget wc w) as [c|] eqn:Ec; simpl;
      unfold total_count in *; simpl; rewrite IH; lia.
Qed.

Lemma total_count_insert_desc x l :
  total_count (Tokenizer.insert_desc x l) = snd x + total_count l.
Proof.
  unfold total_count. induction l as [|y l IH]; simpl; [reflexivity|].
  destruct (snd x <? snd y); simpl; [rewrite IH; lia | reflexivity].
Qed.

Lemma total_count_sorted_desc l :
  total_count (Tokenizer.sorted_desc l) = total_count l.
Proof.
  induction l as [|x l IH]; simpl; [reflexivity|].
  rewrite total_count_insert_desc. unfold total_count in *. simpl. now rewrite IH.
Qed.

Section Frequencies.
Context {P : Pipeline}.

Lemma fit_token_total self token :
  total_count (Tokenizer.words_count (Tokenizer.fit_token self token))
  = total_count (Tokenizer.words_count self) + 1.
Proof.
  unfold Tokenizer.fit_token. cbn [Tokenizer.words_count].
  destruct (negb (smem (Tokenizer.vocab self) (lower token)));
    cbn [Tokenizer.words_count]; apply total_count_bump.
Qed.

Lemma fold_fit_token_total toks self :
  total_count (Tokenizer.words_count (fold_left Tokenizer.fit_token toks self))
  = total_count (Tokenizer.words_count self) + Z.of_nat (length toks).
Proof.
  revert self. induction toks as [|t toks IH]; intros self; cbn [fold_left length].
  - simpl. lia.
  - rewrite IH, fit_token_total. lia.
Qed.

Lemma fold_fit_text_total texts self :
  total_count (Tokenizer.words_count (fold_left Tokenizer.fit_text texts self))
  = total_count (Tokenizer.words_count self) + Z.of_nat (length (corpus_tokens texts)).
Proof.
  revert self. induction texts as [|text texts IH]; intros self; cbn [fold_left].
  - simpl. lia.
  - rewrite IH. unfold Tokenizer.fit_text at 1. rewrite fold_fit_token_total.
    simpl. unfold tokens. rewrite length_app, length_map. lia.
Qed.

Lemma fit_total self texts :
  total_count (Tokenizer.words_count (Tokenizer.fit self texts))
  = total_count (Tokenizer.words_count self) + Z.of_nat (length (corpus_tokens texts)).
Proof.
  unfold Tokenizer.fit. cbn [Tokenizer.words_count].
  rewrite total_count_sorted_desc, fold_fit_text_total.
  now destruct (Tokenizer.oov_token self).
Qed.

Lemma fit_all_total cs self :
  total_count (Tokenizer.words_count (fit_all self cs))
  = total_count (Tokenizer.words_count self)
    + Z.of_nat (length (corpus_tokens (concat cs))).
Proof.
  unfold fit_all. revert self.
  induction cs as [|c cs IH]; intros self; cbn [fold_left concat].
  - simpl. lia.
  - rewrite IH, fit_total.
    unfold corpus_tokens. rewrite flat_map_app, length_app. lia.
Qed.
End Frequencies.

(** C8.  After any series of [fit] calls on a new tokenizer, the
    occurrence counts of the frequency table add up to the number of
    tokens the pipeline produced over all the fitted texts. *)
Theorem words_count_total_is_token_count {P : Pipeline}
    (oov : option string) (cs : list (list string)) :
  total_count (Tokenizer.words_count (fit_all (Tokenizer.init oov) cs))
  = Z.of_nat (length (flat_map nlp (concat cs))).
Proof.
  rewrite fit_all_total. simpl.
  f_equal. unfold corpus_tokens, tokens.
  induction (concat cs) as [|text texts IH]; simpl; [reflexivity|].
  now rewrite !length_app, length_map, IH.
Qed.

(** ** Encoding before any [fit] *)

Section Unfitted.
Context {P : Pipeline}.

Lemma doc_to_sequence_unfitted o token doc :
  Tokenizer.doc_to_sequence (Tokenizer.init (Some o)) (token :: doc) = Raise KeyError.
Proof. reflexivity. Qed.

Lemma fit_registers_oov o c :
  sget (Tokenizer.vocab (Tokenizer.fit (Tokenizer.init (Some o)) c)) o = Some 1.
Proof.
  destruct (fit_init_inv (Some o) c) as [_ Hv _ _]. rewrite Hv.
  rewrite fold_learn_first_seen. simpl. now rewrite String.eqb_refl.
Qed.
End Unfitted.

(** C10.  A tokenizer constructed with an OOV token [o] has an empty
    vocabulary: [o] gets index 1 only when [fit] runs.  Hence, before any
    [fit], [texts_to_sequences] raises [KeyError] on every list of texts
    in which some text has at least one token. *)
Theorem texts_to_sequences_before_fit_raises {P : Pipeline}
    (o : string) (texts : list string) :
  (exists text, In text texts /\ nlp text <> []) ->
  Tokenizer.vocab (Tokenizer.init (Some o)) = []
  /\ (forall c, sget (Tokenizer.vocab (Tokenizer.fit (Tokenizer.init (Some o)) c)) o = Some 1)
  /\ Tokenizer.texts_to_sequences (Tokenizer.init (Some o)) texts = Raise KeyError.
Proof.
  intros [text [Hin Hne]]. split; [reflexivity|]. split; [apply fit_registers_oov|].
  induction texts as [|t texts IH]; [contradiction|].
  cbn [Tokenizer.texts_to_sequences].
  destruct (nlp t) as [|token doc] eqn:Et.
  - destruct Hin as [-> | Hin]; [congruence|].
    simpl. now rewrite (IH Hin).
  - now rewrite doc_to_sequence_unfitted.
Qed.

Lemma texts_to_sequences_before_fit_raises_witness :
  (exists text, In text ["hello world"] /\ nlp (Pipeline := Plain.whitespace) text <> [])
  /\ Tokenizer.texts_to_sequences (P := Plain.whitespace)
       (Tokenizer.init (Some "unk")) ["hello world"] = Raise KeyError.
Proof.
  assert (H : exists text, In text ["hello world"]
                           /\ nlp (Pipeline := Plain.whitespace) text <> []).
  { exists "hello world". split; [now left | discriminate]. }
  split; [exact H|].
  apply (texts_to_sequences_before_fit_raises (P := Plain.whitespace) "unk" ["hello world"] H).
Defined.

(** ** Arrays *)

Section ArrayFacts.
Context {NP : Numpy}.

Lemma replace_nth_length {A} (l : list A) k x : length (Np.replace_nth l k x) = length l.
Proof.
  revert k. induction l as [|y l IH]; intros [|k]; simpl; auto.
Qed.

Lemma nth_error_replace_nth_other {A} (l : list A) k j x :
  k <> j -> nth_error (Np.replace_nth l k x) j = nth_error l j.
Proof.
  revert k j. induction l as [|y l IH]; intros [|k] [|j] H; simpl; auto.
  contradiction.
Qed.

Lemma firstn_replace_nth {A} (l : list A) k x :
  firstn k (Np.replace_nth l k x) = firstn k l.
Proof.
  revert k. induction l as [|y l IH]; intros [|k]; simpl; auto. now rewrite IH.
Qed.

Lemma firstn_S_replace_nth {A} (l : list A) k x :
  (k < length l)%nat -> firstn (S k) (Np.replace_nth l k x) = firstn k l ++ [x].
Proof.
  revert k. induction l as [|y l IH]; intros [|k] H; simpl in *; try lia; auto.
  rewrite IH; [reflexivity | lia].
Qed.

Lemma Forall_replace_nth {A} (Q : A -> Prop) (l : list A) k x :
  Forall Q l -> Q x -> Forall Q (Np.replace_nth l k x).
Proof.
  intros Hl Hx. revert k. induction Hl as [|y l Hy Hl IH]; intros [|k]; simpl; auto.
Qed.

Lemma norm_index_in_range n i :
  0 <= i < n -> Np.norm_index n i = Some (Z.to_nat i).
Proof.
  intros H. unfold Np.norm_index.
  destruct (Z.leb_spec 0 i); [|lia]. destruct (Z.ltb_spec i n); [|lia]. reflexivity.
Qed.

Lemma floats_spec fields :
  match Np.floats fields with
  | Ok vec => forallb numeric fields = true /\ length vec = length fields
  | Raise e => forallb numeric fields = false /\ e = ValueError
  end.
Proof.
  induction fields as [|s fields IH]; simpl; [auto|].
  unfold numeric at 1 3. destruct (py_float s); simpl; [|auto].
  destruct (Np.floats fields); simpl; intuition.
Qed.

(** A row assignment inside the array succeeds exactly when the vector
    has the row's length or length one; the row written then has the
    row's length. *)
Lemma setitem_spec m i vec :
  0 <= i < Np.nrows m ->
  match Np.setitem m i vec with
  | Ok m' =>
      ((length vec =? Np.ncols m)%nat || (length vec =? 1)%nat = true)
      /\ exists row,
           length row = Np.ncols m
           /\ m' = Np.mk (Np.ncols m) (Np.replace_nth (Np.rows m) (Z.to_nat i) row)
  | Raise e =>
      ((length vec =? Np.ncols m)%nat || (length vec =? 1)%nat = false)
      /\ e = ValueError
  end.
Proof.
  intros Hi. unfold Np.setitem. rewrite (norm_index_in_range _ _ Hi).
  destruct (Nat.eqb_spec (length vec) (Np.ncols m)) as [Hlen | Hlen]; simpl.
  - split; [reflexivity|]. now exists vec.
  - destruct vec as [|x [|y vec]]; simpl; auto.
    split; [reflexivity|]. exists (repeat x (Np.ncols m)).
    split; [apply repeat_length | reflexivity].
Qed.
Lemma setitem_fitting_row m i vec :
  0 <= i < Np.nrows m -> length vec = Np.ncols m ->
  Np.setitem m i vec
  = Ok (Np.mk (Np.ncols m) (Np.replace_nth (Np.rows m) (Z.to_nat i) vec)).
Proof.
  intros Hi Hlen. unfold Np.setitem.
  now rewrite (norm_index_in_range _ _ Hi), Hlen, Nat.eqb_refl.
Qed.

End ArrayFacts.

(** ** Loading an embedding file *)

Section LoadFacts.
Context {NP : Numpy}.

Lemma fields_count_matches (dims : Z) (m : Np.ndarray) (n : nat) :
  0 < dims -> Np.ncols m = Z.to_nat dims ->
  (Z.of_nat n =? dims) = (n =? Np.ncols m)%nat.
Proof.
  intros Hd Hc. rewrite Hc.
  destruct (Z.eqb_spec (Z.of_nat n) dims), (Nat.eqb_spec n (Z.to_nat dims)); auto; lia.
Qed.

(** One round of the loop of [load]: an accepted line writes its row and
    registers its word, any other line raises and leaves the store as it
    was. *)
Lemma load_lines_cons self i line m v rv :
  WordEmbedding.embedding self = Some m ->
  WordEmbedding.vocab self = Some v ->
  WordEmbedding.reverse_vocab self = Some rv ->
  0 <= i < Np.nrows m ->
  Np.ncols m = Z.to_nat (WordEmbedding.dimensions self) ->
  0 < WordEmbedding.dimensions self ->
  match parsed_line (Np.ncols m) line with
  | Some (word, row) =>
      accepted_line (WordEmbedding.dimensions self) line = true
      /\ length row = Np.ncols m
      /\ forall rest,
           WordEmbedding.load_lines self i (line :: rest)
           = WordEmbedding.load_lines
               (WordEmbedding.mk
                  (Some (Np.mk (Np.ncols m) (Np.replace_nth (Np.rows m) (Z.to_nat i) row)))
                  (Some (sset v word i)) (Some (zset rv i word))
                  (WordEmbedding.oov_init self) (WordEmbedding.random_state self)
                  (WordEmbedding.dimensions self))
               (i + 1) rest
  | None =>
      accepted_line (WordEmbedding.dimensions self) line = false
      /\ forall rest,
           WordEmbedding.load_lines self i (line :: rest) = (Raise (line_error line), self)
  end.
Proof.
  intros Hm Hv Hrv Hi Hc Hd. unfold accepted_line, parsed_line, line_error.
  assert (Hone : forall n : nat, (Z.of_nat n =? 1) = (n =? 1)%nat).
  { intros n. destruct (Nat.eqb_spec n 1), (Z.eqb_spec (Z.of_nat n) 1); auto; lia. }
  destruct (split line) as [|word fields] eqn:Esplit.
  - split; [reflexivity|].
    intros rest. cbn [WordEmbedding.load_lines]. now rewrite Esplit.
  - pose proof (floats_spec fields) as Hf.
    destruct (Np.floats fields) as [vec|e] eqn:Efl; destruct Hf as [Hnum Hlen].
    + rewrite Hnum. cbn [andb].
      rewrite (fields_count_matches _ m _ Hd Hc), Hone, <- Hlen.
      assert (Hset : forall row,
                 Np.setitem m i vec
                 = Ok (Np.mk (Np.ncols m) (Np.replace_nth (Np.rows m) (Z.to_nat i) row)) ->
                 forall rest,
                   WordEmbedding.load_lines self i (line :: rest)
                   = WordEmbedding.load_lines
                       (WordEmbedding.mk
                          (Some (Np.mk (Np.ncols m)
                                   (Np.replace_nth (Np.rows m) (Z.to_nat i) row)))
                          (Some (sset v word i)) (Some (zset rv i word))
                          (WordEmbedding.oov_init self) (WordEmbedding.random_state self)
                          (WordEmbedding.dimensions self))
                       (i + 1) rest).
      { intros row Eset rest. cbn [WordEmbedding.load_lines].
        now rewrite Esplit, Efl, Hm, Hv, Hrv, Eset. }
      assert (Hfail : Np.setitem m i vec = Raise ValueError ->
                      forall rest,
                        WordEmbedding.load_lines self i (line :: rest)
                        = (Raise ValueError, self)).
      { intros Eset rest. cbn [WordEmbedding.load_lines].
        now rewrite Esplit, Efl, Hm, Hv, Hrv, Eset. }
      unfold Np.setitem in Hset, Hfail.
      rewrite (norm_index_in_range _ _ Hi) in Hset, Hfail.
      destruct (Nat.eqb_spec (length vec) (Np.ncols m)) as [Hl | Hl]; cbn [orb].
      * repeat split; auto.
      * destruct vec as [|x [|y vec]]; cbn [length Nat.eqb].
        -- split; [reflexivity|]. auto.
        -- repeat split; auto. apply repeat_length.
        -- split; [reflexivity|]. auto.
    + subst e. rewrite Hnum. split; [reflexivity|].
      intros rest. cbn [WordEmbedding.load_lines]. now rewrite Esplit, Efl.
Qed.
End LoadFacts.

Section LoadOutcome.
Context {NP : Numpy}.

(** The loop succeeds exactly when every line is accepted; otherwise it
    raises [ValueError] or [IndexError]. *)
Lemma load_lines_outcome ls : forall self i m v rv,
  WordEmbedding.embedding self = Some m ->
  WordEmbedding.vocab self = Some v ->
  WordEmbedding.reverse_vocab self = Some rv ->
  0 <= i -> i + Z.of_nat (length ls) <= Np.nrows m ->
  Np.ncols m = Z.to_nat (WordEmbedding.dimensions self) ->
  0 < WordEmbedding.dimensions self ->
  match fst (WordEmbedding.load_lines self i ls) with
  | Ok _ => forallb (accepted_line (WordEmbedding.dimensions self)) ls = true
  | Raise e =>
      forallb (accepted_line (WordEmbedding.dimensions self)) ls = false
      /\ (e = ValueError \/ e = IndexError)
  end.
Proof.
  induction ls as [|line rest IH]; intros self i m v rv Hm Hv Hrv Hi Hn Hc Hd.
  - reflexivity.
  - cbn [length] in Hn. rewrite Nat2Z.inj_succ in Hn.
    pose proof (load_lines_cons self i line m v rv Hm Hv Hrv ltac:(lia) Hc Hd) as Hstep.
    destruct (parsed_line (Np.ncols m) line) as [[word row]|];
      [destruct Hstep as [Hacc [Hrow Heq]] | destruct Hstep as [Hacc Heq]].
    + rewrite Heq. cbn [forallb]. rewrite Hacc. cbn [andb].
      match goal with
      | |- context [WordEmbedding.load_lines ?s (i + 1) rest] =>
          pose proof (IH s (i + 1) _ _ _ eq_refl eq_refl eq_refl) as IH'
      end.
      unfold Np.nrows in *.
      cbn [WordEmbedding.dimensions Np.ncols Np.rows] in IH'.
      rewrite replace_nth_length in IH'. apply IH'; auto; lia.
    + rewrite Heq. cbn [fst forallb]. rewrite Hacc. split; [reflexivity|].
      unfold line_error. destruct (split line); auto.
Qed.

(** The outcome of the loop and the fields it leaves depend on the three
    fields it found and on the dimensionality, on nothing else. *)
Lemma load_lines_observable ls : forall a b i,
  observable a = observable b ->
  WordEmbedding.dimensions a = WordEmbedding.dimensions b ->
  fst (WordEmbedding.load_lines a i ls) = fst (WordEmbedding.load_lines b i ls)
  /\ observable (snd (WordEmbedding.load_lines a i ls))
     = observable (snd (WordEmbedding.load_lines b i ls)).
Proof.
  induction ls as [|line rest IH]; intros a b i Hobs Hd; cbn [WordEmbedding.load_lines].
  - auto.
  - assert (Hsame : forall e : exn,
               fst (@Raise unit e, a) = fst (@Raise unit e, b)
               /\ observable (snd (@Raise unit e, a)) = observable (snd (@Raise unit e, b)))
      by (intros e; split; [reflexivity | exact Hobs]).
    pose proof Hobs as Hfields. unfold observable in Hfields.
    inversion Hfields as [[He Hv Hrv]].
    destruct (split line) as [|word fields]; [apply Hsame|].
    destruct (Np.floats fields) as [vec|e]; [|apply Hsame].
    rewrite He, Hv, Hrv.
    destruct (WordEmbedding.embedding b) as [m|]; [|apply Hsame].
    destruct (WordEmbedding.vocab b) as [v|]; [|apply Hsame].
    destruct (WordEmbedding.reverse_vocab b) as [rv|]; [|apply Hsame].
    destruct (Np.setitem m i vec) as [m'|e]; [|apply Hsame].
    apply IH; [reflexivity | exact Hd].
Qed.

(** Whatever the lines, the loop keeps the rows at the array's width and
    the vocabulary inside the array. *)
Lemma load_lines_well_loaded ls : forall self i m v,
  WordEmbedding.embedding self = Some m ->
  WordEmbedding.vocab self = Some v ->
  WordEmbedding.reverse_vocab self <> None ->
  0 <= i -> i + Z.of_nat (length ls) <= Np.nrows m ->
  Np.ncols m = Z.to_nat (WordEmbedding.dimensions self) ->
  0 < WordEmbedding.dimensions self ->
  Forall (fun r => length r = Np.ncols m) (Np.rows m) ->
  Forall (fun p => 0 <= snd p < Np.nrows m) v ->
  well_loaded (snd (WordEmbedding.load_lines self i ls)).
Proof.
  induction ls as [|line rest IH]; intros self i m v Hm Hv Hrv Hi Hn Hc Hd Hrows Hvoc.
  - exists m, v. auto.
  - cbn [length] in Hn. rewrite Nat2Z.inj_succ in Hn.
    destruct (WordEmbedding.reverse_vocab self) as [rv|] eqn:Erv; [|congruence].
    pose proof (load_lines_cons self i line m v rv Hm Hv Erv ltac:(lia) Hc Hd) as Hstep.
    destruct (parsed_line (Np.ncols m) line) as [[word row]|];
      [destruct Hstep as [Hacc [Hrow Heq]] | destruct Hstep as [Hacc Heq]].
    + rewrite Heq.
      match goal with
      | |- well_loaded (snd (WordEmbedding.load_lines ?s _ _)) =>
          pose proof (IH s (i + 1) _ _ eq_refl eq_refl) as IH'
      end.
      unfold Np.nrows in *.
      cbn [WordEmbedding.dimensions WordEmbedding.reverse_vocab Np.ncols Np.rows] in IH'.
      rewrite replace_nth_length in IH'. apply IH'; auto; try lia.
      * discriminate.
      * now apply Forall_replace_nth.
      * clear - Hvoc Hi Hn. induction Hvoc as [|[k j] v Hj Hvoc IHv]; cbn.
        -- constructor; [cbn; lia | constructor].
        -- destruct (String.eqb k word); constructor; cbn in *; auto; lia.
    + rewrite Heq. exists m, v. auto.
Qed.
End LoadOutcome.

Section LoadAbort.
Context {NP : Numpy}.

(** The loop stops at the first line that is not accepted: it raises
    that line's exception and leaves the store as the lines before it
    made it, whatever follows. *)
Lemma load_lines_stops pre bad post : forall self i m v rv,
  WordEmbedding.embedding self = Some m ->
  WordEmbedding.vocab self = Some v ->
  WordEmbedding.reverse_vocab self = Some rv ->
  0 <= i -> i + Z.of_nat (length pre) < Np.nrows m ->
  Np.ncols m = Z.to_nat (WordEmbedding.dimensions self) ->
  0 < WordEmbedding.dimensions self ->
  forallb (accepted_line (WordEmbedding.dimensions self)) pre = true ->
  accepted_line (WordEmbedding.dimensions self) bad = false ->
  WordEmbedding.load_lines self i (pre ++ bad :: post)
  = (Raise (line_error bad), snd (WordEmbedding.load_lines self i pre)).
Proof.
  induction pre as [|line pre IH]; intros self i m v rv Hm Hv Hrv Hi Hn Hc Hd Hpre Hbad.
  - cbn [length] in Hn. cbn [app].
    pose proof (load_lines_cons self i bad m v rv Hm Hv Hrv ltac:(lia) Hc Hd) as Hstep.
    destruct (parsed_line (Np.ncols m) bad) as [[word row]|].
    + destruct Hstep as [Hacc _]. congruence.
    + destruct Hstep as [_ Heq]. now rewrite Heq.
  - cbn [length] in Hn. rewrite Nat2Z.inj_succ in Hn.
    cbn [forallb] in Hpre. apply andb_prop in Hpre. destruct Hpre as [Hline Hpre].
    pose proof (load_lines_cons self i line m v rv Hm Hv Hrv ltac:(lia) Hc Hd) as Hstep.
    destruct (parsed_line (Np.ncols m) line) as [[word row]|].
    + destruct Hstep as [_ [Hrow Heq]]. rewrite <- app_comm_cons, !Heq.
      match goal with
      | |- WordEmbedding.load_lines ?s _ _ = _ =>
          pose proof (IH s (i + 1) _ _ _ eq_refl eq_refl eq_refl) as IH'
      end.
      unfold Np.nrows in *.
      cbn [WordEmbedding.dimensions Np.ncols Np.rows] in IH'.
      rewrite replace_nth_length in IH'. apply IH'; auto; lia.
    + destruct Hstep as [Hacc _]. congruence.
Qed.

(** Accepted lines written into two arrays of different heights leave the
    same vocabulary and the same rows. *)
Lemma load_lines_same_prefix ls : forall a b i ma mb v rv,
  WordEmbedding.embedding a = Some ma ->
  WordEmbedding.embedding b = Some mb ->
  WordEmbedding.vocab a = Some v -> WordEmbedding.vocab b = Some v ->
  WordEmbedding.reverse_vocab a = Some rv -> WordEmbedding.reverse_vocab b = Some rv ->
  WordEmbedding.dimensions b = WordEmbedding.dimensions a ->
  0 <= i ->
  i + Z.of_nat (length ls) <= Np.nrows ma ->
  i + Z.of_nat (length ls) <= Np.nrows mb ->
  Np.ncols ma = Z.to_nat (WordEmbedding.dimensions a) ->
  Np.ncols mb = Np.ncols ma ->
  0 < WordEmbedding.dimensions a ->
  firstn (Z.to_nat i) (Np.rows ma) = firstn (Z.to_nat i) (Np.rows mb) ->
  forallb (accepted_line (WordEmbedding.dimensions a)) ls = true ->
  same_prefix (Z.to_nat i + length ls)
    (snd (WordEmbedding.load_lines a i ls)) (snd (WordEmbedding.load_lines b i ls)).
Proof.
  induction ls as [|line ls IH];
    intros a b i ma mb v rv Ha Hb Hva Hvb Hra Hrb Hdim Hi Hna Hnb Hca Hcb Hd Hrows Hacc.
  - cbn [WordEmbedding.load_lines snd length]. rewrite Nat.add_0_r.
    repeat split; try congruence. now exists ma, mb.
  - cbn [length] in Hna, Hnb. rewrite Nat2Z.inj_succ in Hna, Hnb.
    cbn [forallb] in Hacc. apply andb_prop in Hacc. destruct Hacc as [Hline Hacc].
    pose proof (load_lines_cons a i line ma v rv Ha Hva Hra ltac:(lia) Hca Hd) as Hsa.
    assert (Hcb' : Np.ncols mb = Z.to_nat (WordEmbedding.dimensions b)) by congruence.
    assert (Hdb : 0 < WordEmbedding.dimensions b) by congruence.
    pose proof (load_lines_cons b i line mb v rv Hb Hvb Hrb ltac:(lia) Hcb' Hdb) as Hsb.
    rewrite Hcb in Hsb.
    destruct (parsed_line (Np.ncols ma) line) as [[word row]|].
    + destruct Hsa as [_ [Hrow Heqa]]. destruct Hsb as [_ [_ Heqb]].
      rewrite Heqa, Heqb.
      replace (Z.to_nat i + length (line :: ls))%nat
        with (Z.to_nat (i + 1) + length ls)%nat by (cbn [length]; lia).
      unfold Np.nrows in *.
      eapply IH; cbn [WordEmbedding.embedding WordEmbedding.vocab WordEmbedding.reverse_vocab
                      WordEmbedding.dimensions Np.ncols Np.rows];
        try reflexivity; try assumption; try lia;
        try (rewrite replace_nth_length; lia); try congruence.
      all: cbn [Np.rows Np.ncols]; try (rewrite replace_nth_length; lia).
      replace (Z.to_nat (i + 1)) with (S (Z.to_nat i)) by lia.
      rewrite !firstn_S_replace_nth by lia. now rewrite Hrows.
    + destruct Hsa as [Hno _]. congruence.
Qed.

Lemma empty_nrows n d : 0 <= n -> Np.nrows (Np.empty n d) = n.
Proof. intros Hn. unfold Np.nrows, Np.empty. cbn. rewrite repeat_length. lia. Qed.

Lemma load_Lines self ls :
  WordEmbedding.load self (WordEmbedding.Lines ls)
  = WordEmbedding.load_lines
      (WordEmbedding.mk
         (Some (Np.empty (Z.of_nat (length ls)) (WordEmbedding.dimensions self)))
         (Some []) (Some [])
         (WordEmbedding.oov_init self) (WordEmbedding.random_state self)
         (WordEmbedding.dimensions self))
      0 ls.
Proof. reflexivity. Qed.

Lemma load_outcome self ls :
  0 < WordEmbedding.dimensions self ->
  match fst (WordEmbedding.load self (WordEmbedding.Lines ls)) with
  | Ok _ => forallb (accepted_line (WordEmbedding.dimensions self)) ls = true
  | Raise e =>
      forallb (accepted_line (WordEmbedding.dimensions self)) ls = false
      /\ (e = ValueError \/ e = IndexError)
  end.
Proof.
  intros Hd. rewrite load_Lines.
  match goal with
  | |- context [WordEmbedding.load_lines ?s 0 ls] =>
      pose proof (load_lines_outcome ls s 0 _ _ _ eq_refl eq_refl eq_refl) as H
  end.
  cbn [WordEmbedding.dimensions] in H. apply H; auto; try lia.
  rewrite empty_nrows; lia.
Qed.

Lemma load_stops self pre bad post :
  0 < WordEmbedding.dimensions self ->
  forallb (accepted_line (WordEmbedding.dimensions self)) pre = true ->
  accepted_line (WordEmbedding.dimensions self) bad = false ->
  fst (WordEmbedding.load self (WordEmbedding.Lines (pre ++ bad :: post)))
  = Raise (line_error bad)
  /\ fst (WordEmbedding.load self (WordEmbedding.Lines pre)) = Ok tt
  /\ same_prefix (length pre)
       (snd (WordEmbedding.load self (WordEmbedding.Lines (pre ++ bad :: post))))
       (snd (WordEmbedding.load self (WordEmbedding.Lines pre))).
Proof.
  intros Hd Hpre Hbad.
  assert (Hlen : Z.of_nat (length pre) < Z.of_nat (length (pre ++ bad :: post))).
  { rewrite length_app. cbn [length]. lia. }
  split; [|split].
  - rewrite load_Lines.
    erewrite load_lines_stops; cbn [WordEmbedding.dimensions]; try reflexivity;
      try assumption; try lia.
    rewrite empty_nrows; lia.
  - pose proof (load_outcome self pre Hd) as H.
    destruct (fst (WordEmbedding.load self (WordEmbedding.Lines pre))) as [[]|e];
      [reflexivity|]. destruct H as [H _]. congruence.
  - rewrite !load_Lines.
    erewrite load_lines_stops; cbn [WordEmbedding.dimensions]; try reflexivity;
      try assumption; try lia; [|rewrite empty_nrows; lia].
    cbn [snd].
    change (length pre) with (Z.to_nat 0 + length pre)%nat.
    eapply load_lines_same_prefix;
      cbn [WordEmbedding.embedding WordEmbedding.vocab WordEmbedding.reverse_vocab
           WordEmbedding.dimensions];
      try reflexivity; try assumption; try lia;
      try (rewrite empty_nrows; lia).
Qed.
End LoadAbort.

Lemma forallb_false_exists {A} (f : A -> bool) (l : list A) :
  forallb f l = false <-> exists x, In x l /\ f x = false.
Proof.
  induction l as [|y l IH]; simpl.
  - split; [discriminate | intros [x [[] _]]].
  - rewrite andb_false_iff, IH. split.
    + intros [Hy | [x [Hin Hx]]]; eauto.
    + intros [x [[<- | Hin] Hx]]; eauto.
Qed.

(** C6, as amended.  [load] raises exactly when some line is not
    accepted, a line being accepted when it has a leading word followed
    by numeric fields that number [dimensions] or exactly one (a single
    value is broadcast over the row).  The first line that is not
    accepted aborts the load with its exception ([IndexError] for a blank
    line, [ValueError] otherwise), whatever the lines after it. *)
Theorem load_raises_iff_some_line_not_accepted {NP : Numpy}
    (self : WordEmbedding.t) (ls : list string) :
  50 <= WordEmbedding.dimensions self <= 300 ->
  (raised (fst (WordEmbedding.load self (WordEmbedding.Lines ls)))
   <-> exists line, In line ls /\ accepted_line (WordEmbedding.dimensions self) line = false)
  /\ (forall pre bad post,
        ls = pre ++ bad :: post ->
        forallb (accepted_line (WordEmbedding.dimensions self)) pre = true ->
        accepted_line (WordEmbedding.dimensions self) bad = false ->
        fst (WordEmbedding.load self (WordEmbedding.Lines ls)) = Raise (line_error bad)).
Proof.
  intros Hd. split.
  - pose proof (load_outcome self ls ltac:(lia)) as H.
    rewrite <- forallb_false_exists.
    destruct (fst (WordEmbedding.load self (WordEmbedding.Lines ls))) as [u|e]; simpl.
    + rewrite H. split; [contradiction | discriminate].
    + destruct H as [H _]. tauto.
  - intros pre bad post -> Hpre Hbad.
    now destruct (load_stops self pre bad post ltac:(lia) Hpre Hbad) as [H _].
Qed.

Lemma load_raises_iff_some_line_not_accepted_witness :
  50 <= WordEmbedding.dimensions Examples.store_zero <= 300
  /\ raised (fst (WordEmbedding.load Examples.store_zero Examples.broken_file)).
Proof.
  assert (H : 50 <= WordEmbedding.dimensions Examples.store_zero <= 300) by (cbn; lia).
  split; [exact H|].
  apply (load_raises_iff_some_line_not_accepted (NP := Plain.numpy)
           Examples.store_zero ["the 0.5"; "cat"] H).
  exists "cat". split; [right; now left | reflexivity].
Defined.

(** C6, as stated, fails on a line with a single numeric field: with 50
    dimensions the file whose only line is "the 0.5" does not have 50
    fields after the word, yet [load] succeeds, the value filling the
    whole row. *)
Lemma load_accepts_single_field_line :
  ~ (forall dims oov rs (self : WordEmbedding.t (NP := Plain.numpy)) ls,
       WordEmbedding.init dims oov rs = Ok self ->
       (exists line, In line ls /\ exact_fields (NP := Plain.numpy) dims line = false) ->
       raised (fst (WordEmbedding.load self (WordEmbedding.Lines ls)))).
Proof.
  intros H.
  assert (Hinit : WordEmbedding.init 50 "zero" WordEmbedding.arg_None = Ok Examples.store_zero)
    by reflexivity.
  assert (Hload : WordEmbedding.load Examples.store_zero (WordEmbedding.Lines ["the 0.5"])
                  = (Ok tt, Examples.store_zero_loaded))
    by reflexivity.
  specialize (H _ _ _ _ ["the 0.5"] Hinit). rewrite Hload in H.
  apply H. exists "the 0.5". split; [now left | reflexivity].
Qed.

(** C2, as amended.  [load] is not atomic.  If the file cannot be opened
    the store is unchanged.  Otherwise the three fields are reassigned
    before the first line is parsed, so that the outcome and the fields
    left behind never depend on what the store held; and when a line is
    not accepted, [load] raises with the store holding the vocabulary,
    the reverse vocabulary and the rows of exactly the lines before it,
    as a successful [load] of those lines alone would have left them. *)
Theorem load_discards_prior_state_and_keeps_parsed_lines {NP : Numpy}
    (self : WordEmbedding.t) :
  50 <= WordEmbedding.dimensions self <= 300 ->
  WordEmbedding.load self WordEmbedding.Unreadable = (Raise OSError, self)
  /\ (forall other ls,
        WordEmbedding.dimensions other = WordEmbedding.dimensions self ->
        fst (WordEmbedding.load other (WordEmbedding.Lines ls))
        = fst (WordEmbedding.load self (WordEmbedding.Lines ls))
        /\ observable (snd (WordEmbedding.load other (WordEmbedding.Lines ls)))
           = observable (snd (WordEmbedding.load self (WordEmbedding.Lines ls))))
  /\ (forall pre bad post,
        forallb (accepted_line (WordEmbedding.dimensions self)) pre = true ->
        accepted_line (WordEmbedding.dimensions self) bad = false ->
        raised (fst (WordEmbedding.load self (WordEmbedding.Lines (pre ++ bad :: post))))
        /\ fst (WordEmbedding.load self (WordEmbedding.Lines pre)) = Ok tt
        /\ same_prefix (length pre)
             (snd (WordEmbedding.load self (WordEmbedding.Lines (pre ++ bad :: post))))
             (snd (WordEmbedding.load self (WordEmbedding.Lines pre)))).
Proof.
  intros Hd. split; [reflexivity|]. split.
  - intros other ls Hdim. rewrite !load_Lines.
    apply load_lines_observable; cbn; [now rewrite Hdim | exact Hdim].
  - intros pre bad post Hpre Hbad.
    destruct (load_stops self pre bad post ltac:(lia) Hpre Hbad) as [Hr [Hok Hsame]].
    rewrite Hr. split; [exact I | split; assumption].
Qed.

Lemma load_discards_prior_state_and_keeps_parsed_lines_witness :
  50 <= WordEmbedding.dimensions Examples.store_zero <= 300
  /\ WordEmbedding.load Examples.store_zero WordEmbedding.Unreadable
     = (Raise OSError, Examples.store_zero).
Proof.
  assert (H : 50 <= WordEmbedding.dimensions Examples.store_zero <= 300) by (cbn; lia).
  split; [exact H|].
  apply (load_discards_prior_state_and_keeps_parsed_lines (NP := Plain.numpy)
           Examples.store_zero H).
Defined.

(** C2, as stated, fails: on a new store of 50 dimensions, [load] of the
    file with lines "the 0.5" and "cat" raises on the second line, and
    the store is then no longer as before the call: [vocab] maps "the"
    to 0. *)
Lemma load_failure_is_not_atomic :
  ~ (forall dims oov rs (self : WordEmbedding.t (NP := Plain.numpy)) f e self',
       WordEmbedding.init dims oov rs = Ok self ->
       WordEmbedding.load self f = (Raise e, self') ->
       observable self' = observable self).
Proof.
  intros H.
  assert (Hinit : WordEmbedding.init 50 "zero" WordEmbedding.arg_None = Ok Examples.store_zero)
    by reflexivity.
  assert (Hload : WordEmbedding.load Examples.store_zero Examples.broken_file
                  = (Raise ValueError, Examples.store_zero_broken))
    by reflexivity.
  specialize (H _ _ _ _ _ _ _ Hinit Hload).
  assert (Hvocab : WordEmbedding.vocab Examples.store_zero_broken = Some [("the", 0)])
    by reflexivity.
  unfold observable in H. rewrite Hvocab in H. discriminate.
Qed.

(** ** Looking words up *)

Section GetFacts.
Context {NP : Numpy}.

Lemma init_unloaded dims oov rs self :
  WordEmbedding.init dims oov rs = Ok self ->
  WordEmbedding.embedding self = None
  /\ WordEmbedding.vocab self = None
  /\ WordEmbedding.reverse_vocab self = None
  /\ WordEmbedding.dimensions self = dims
  /\ 50 <= dims <= 300.
Proof.
  unfold WordEmbedding.init.
  destruct (String.eqb oov "zero"); [|destruct (String.eqb oov "rand")];
    destruct rs; cbn; try discriminate;
    destruct (Z.leb_spec 50 dims) as [Hlo | Hlo]; cbn; try discriminate;
    destruct (Z.ltb_spec dims 301) as [Hhi | Hhi]; cbn; try discriminate;
    intros Hok; inversion Hok; cbn; repeat split; lia.
Qed.

Lemma load_all_unreadable self attempts :
  Forall (fun f => f = WordEmbedding.Unreadable) attempts ->
  load_all self attempts = self.
Proof.
  intros H. unfold load_all. induction H as [|f attempts -> _ IH]; cbn; auto.
Qed.

Lemma uniform1_length g d : length (Np.uniform1 g d) = Z.to_nat d.
Proof. unfold Np.uniform1, Np.uniform1_from. now rewrite length_map, length_seq. Qed.

Lemma zeros1_length d : length (Np.zeros1 d) = Z.to_nat d.
Proof. apply repeat_length. Qed.

(** On a store whose vocabulary points into its array, [get] returns a
    vector of the store's dimensionality, provided a generator can be
    made when one is needed. *)
Lemma get_returns self word include_oov w :
  well_loaded self ->
  WordEmbedding.oov_init self = WordEmbedding.zero_init
  \/ WordEmbedding.random_state self = WordEmbedding.np_random ->
  exists vec w',
    WordEmbedding.get self word include_oov w = (Ok vec, w')
    /\ length vec = Z.to_nat (WordEmbedding.dimensions self).
Proof.
  intros [m [v [Hm [Hv [Hc [Hrows Hvoc]]]]]] Hrng.
  unfold WordEmbedding.get. rewrite Hm, Hv.
  destruct (sget v word) as [i|] eqn:Ei.
  - apply (get_In _ String.eqb_eq) in Ei.
    rewrite Forall_forall in Hvoc. specialize (Hvoc _ Ei). cbn in Hvoc.
    unfold Np.getitem. rewrite (norm_index_in_range _ _ Hvoc).
    destruct (nth_error (Np.rows m) (Z.to_nat i)) as [r|] eqn:Er.
    + exists r, w. split; [reflexivity|].
      rewrite Forall_forall in Hrows. rewrite <- Hc. apply Hrows.
      eapply nth_error_In; eauto.
    + apply nth_error_None in Er. unfold Np.nrows in Hvoc. lia.
  - destruct Hrng as [Hz | Hr].
    + rewrite Hz. exists (Np.zeros1 (WordEmbedding.dimensions self)), w.
      split; [reflexivity | apply zeros1_length].
    + rewrite Hr. destruct (WordEmbedding.oov_init self), include_oov; cbn;
        eexists; eexists; (split; [reflexivity|]);
        first [apply uniform1_length | apply zeros1_length].
Qed.
(** With [random_state] unset, [get] of a word outside the vocabulary
    makes a generator of its own and returns its first [dimensions]
    samples: two calls in a row draw from two generators. *)
Lemma get_oov_rand_unset self v m word w :
  WordEmbedding.vocab self = Some v ->
  WordEmbedding.embedding self = Some m ->
  sget v word = None ->
  WordEmbedding.oov_init self = WordEmbedding.rand ->
  WordEmbedding.random_state self = WordEmbedding.np_random ->
  WordEmbedding.get self word true w
  = (Ok (Np.uniform1 w (WordEmbedding.dimensions self)), S w)
  /\ length (Np.uniform1 w (WordEmbedding.dimensions self))
     = Z.to_nat (WordEmbedding.dimensions self).
Proof.
  intros Hv Hm Hword Hoi Hrs. unfold WordEmbedding.get.
  rewrite Hv, Hm, Hword, Hoi, Hrs. split; [reflexivity | apply uniform1_length].
Qed.

(** With a seed or a [RandomState] object, the same call raises. *)
Lemma get_oov_rand_RandomState self v m word state w :
  WordEmbedding.vocab self = Some v ->
  WordEmbedding.embedding self = Some m ->
  sget v word = None ->
  WordEmbedding.oov_init self = WordEmbedding.rand ->
  WordEmbedding.random_state self = WordEmbedding.RandomState state ->
  WordEmbedding.get self word true w = (Raise AttributeError, w).
Proof.
  intros Hv Hm Hword Hoi Hrs. unfold WordEmbedding.get.
  now rewrite Hv, Hm, Hword, Hoi, Hrs.
Qed.
End GetFacts.

(** C9, as amended.  On a store on which [load] has not been called, or
    has only been called on files that could not be opened, [get] raises
    [RuntimeError] for every word and every [include_oov]. *)
Theorem get_raises_before_any_line_is_parsed {NP : Numpy}
    (dims : Z) (oov : string) (rs : WordEmbedding.random_state_arg)
    (self : WordEmbedding.t) (attempts : list WordEmbedding.file)
    (word : string) (include_oov : bool) (w : nat) :
  WordEmbedding.init dims oov rs = Ok self ->
  Forall (fun f => f = WordEmbedding.Unreadable) attempts ->
  WordEmbedding.get (load_all self attempts) word include_oov w = (Raise RuntimeError, w).
Proof.
  intros Hinit Hatt. rewrite (load_all_unreadable _ _ Hatt).
  destruct (init_unloaded _ _ _ _ Hinit) as [_ [Hv _]].
  unfold WordEmbedding.get. now rewrite Hv.
Qed.

Lemma get_raises_before_any_line_is_parsed_witness :
  WordEmbedding.get (load_all Examples.store_rand [WordEmbedding.Unreadable]) "the" true 0
  = (Raise RuntimeError, 0%nat).
Proof.
  apply (get_raises_before_any_line_is_parsed (NP := Plain.numpy)
           50 "rand" WordEmbedding.arg_None).
  - reflexivity.
  - repeat constructor.
Defined.

(** C9, as stated, fails after a [load] that raised on a line: on a new
    store of 50 dimensions with [oov_init='zero'], [load] of the lines
    "the 0.5" and "cat" raises, so no [load] has succeeded, yet [get]
    then returns a vector instead of raising. *)
Lemma get_after_failed_load_does_not_raise :
  ~ (forall dims oov rs (self : WordEmbedding.t (NP := Plain.numpy)) f e self'
            word include_oov w,
       WordEmbedding.init dims oov rs = Ok self ->
       WordEmbedding.load self f = (Raise e, self') ->
       fst (WordEmbedding.get self' word include_oov w) = Raise RuntimeError).
Proof.
  intros H.
  assert (Hinit : WordEmbedding.init 50 "zero" WordEmbedding.arg_None = Ok Examples.store_zero)
    by reflexivity.
  assert (Hload : WordEmbedding.load Examples.store_zero Examples.broken_file
                  = (Raise ValueError, Examples.store_zero_broken))
    by reflexivity.
  assert (Hget : WordEmbedding.get Examples.store_zero_broken "zzz" true 0
                 = (Ok (Np.zeros1 50), 0%nat))
    by reflexivity.
  specialize (H _ _ _ _ _ _ _ "zzz" true 0%nat Hinit Hload).
  rewrite Hget in H. discriminate.
Qed.

(** C3, at an input where the code departs from it: [random_state] is
    an integer seed.  The constructor accepts the seed and stores a
    [RandomState] object; on the loaded store, [get] of a word outside
    the vocabulary then asks that object for [default_rng], which it does
    not have, and raises [AttributeError] instead of returning a vector. *)
Theorem get_oov_rand_with_seed_raises :
  WordEmbedding.init 50 "rand" (WordEmbedding.arg_int 42) = Ok Examples.store_seeded
  /\ WordEmbedding.load Examples.store_seeded Examples.one_value_file
     = (Ok tt, Examples.store_seeded_loaded)
  /\ WordEmbedding.vocab Examples.store_seeded_loaded = Some [("the", 0)]
  /\ WordEmbedding.get Examples.store_seeded_loaded "zzz" true 0
     = (Raise AttributeError, 0%nat).
Proof.
  repeat split; reflexivity.
Qed.

(** ** The weight matrix *)

Section WeightMatrix.
Context {NP : Numpy}.

(** Writing a row at a positive index keeps the number of rows, the
    width and row 0. *)
Lemma setitem_keeps_row0 m i vec m' :
  1 <= i -> Np.setitem m i vec = Ok m' ->
  Np.nrows m' = Np.nrows m
  /\ Np.ncols m' = Np.ncols m
  /\ nth_error (Np.rows m') 0 = nth_error (Np.rows m) 0.
Proof.
  intros Hi. unfold Np.setitem, Np.norm_index.
  destruct (Z.leb_spec 0 i) as [Hlo | Hlo]; [|lia]. cbn [andb].
  destruct (Z.ltb_spec i (Np.nrows m)) as [Hhi | Hhi].
  - assert (Hk : Z.to_nat i <> 0%nat) by lia.
    destruct (length vec =? Np.ncols m)%nat.
    + intros Hok. inversion Hok. unfold Np.nrows. cbn [Np.rows Np.ncols].
      rewrite replace_nth_length. repeat split.
      now apply nth_error_replace_nth_other.
    + destruct vec as [|x [|y vec]]; try discriminate.
      intros Hok. inversion Hok. unfold Np.nrows. cbn [Np.rows Np.ncols].
      rewrite replace_nth_length. repeat split.
      now apply nth_error_replace_nth_other.
  - destruct (Z.leb_spec (- Np.nrows m) i) as [Hl | Hl]; cbn [andb];
      destruct (Z.ltb_spec i 0) as [Hz | Hz]; try lia; discriminate.
Qed.

Lemma fill_rows_keeps_row0 we wv items : forall m out w m' out' w',
  Forall (fun p => 1 <= snd p) items ->
  Tokenizer.fill_rows we wv items m out w = (Ok (m', out'), w') ->
  Np.nrows m' = Np.nrows m
  /\ nth_error (Np.rows m') 0 = nth_error (Np.rows m) 0.
Proof.
  induction items as [|[word index] items IH]; intros m out w m' out' w' Hpos Hfill.
  - cbn in Hfill. inversion Hfill. auto.
  - inversion Hpos as [|? ? Hindex Hpos']; subst. cbn in Hindex.
    cbn [Tokenizer.fill_rows] in Hfill.
    destruct (WordEmbedding.get we word true w) as [[vec|e] w1]; [|discriminate].
    destruct (Np.setitem m index vec) as [m1|e] eqn:Eset; [|discriminate].
    destruct (setitem_keeps_row0 _ _ _ _ Hindex Eset) as [Hn [_ H0]].
    destruct (IH _ _ _ _ _ _ Hpos' Hfill) as [Hn' H0'].
    split; congruence.
Qed.

Lemma uniform2_nrows g n d : 0 <= n -> Np.nrows (Np.uniform2 g n d) = n.
Proof.
  intros Hn. unfold Np.nrows, Np.uniform2. cbn. rewrite length_map, length_seq. lia.
Qed.

Lemma zeros_nrows n d : 0 <= n -> Np.nrows (Np.zeros n d) = n.
Proof. intros Hn. unfold Np.nrows, Np.zeros. cbn. rewrite repeat_length. lia. Qed.

(** Forcing row 0 of the random matrix to zeros. *)
Lemma setitem_padding_row g n d m :
  Np.setitem (Np.uniform2 g n d) 0 (Np.zeros1 d) = Ok m ->
  Np.nrows m = Np.nrows (Np.uniform2 g n d)
  /\ Np.ncols m = Z.to_nat d
  /\ nth_error (Np.rows m) 0 = Some (Np.zeros1 d).
Proof.
  intros Hset.
  destruct (Z.ltb_spec 0 (Np.nrows (Np.uniform2 g n d))) as [Hpos | Hneg].
  - rewrite setitem_fitting_row in Hset; [|lia|apply repeat_length].
    inversion Hset. unfold Np.nrows in *. cbn [Np.rows Np.ncols Np.uniform2] in *.
    rewrite replace_nth_length. repeat split.
    change (Z.to_nat 0) with 0%nat.
    destruct (map _ _) as [|r rows]; [cbn in Hpos; lia | reflexivity].
  - unfold Np.setitem, Np.norm_index in Hset.
    replace (0 <? Np.nrows (Np.uniform2 g n d)) with false in Hset
      by (symmetry; apply Z.ltb_ge; lia).
    change (0 <=? 0) with true in Hset. change (0 <? 0) with false in Hset.
    cbn [andb] in Hset. rewrite andb_false_r in Hset. discriminate.
Qed.

Lemma enum_from_positive k ws :
  1 <= k -> Forall (fun p : string * Z => 1 <= snd p) (enum_from k ws).
Proof.
  revert k. induction ws as [|x ws IH]; intros k Hk; cbn; constructor; [assumption|].
  apply IH. lia.
Qed.

Lemma enum_from_bounds k ws :
  Forall (fun p : string * Z => k <= snd p < k + Z.of_nat (length ws)) (enum_from k ws).
Proof.
  revert k. induction ws as [|x ws IH]; intros k; cbn [enum_from length]; constructor.
  - cbn. lia.
  - eapply Forall_impl; [|apply (IH (k + 1))]. cbv beta. intros p Hp. lia.
Qed.

(** The matrix built for a tokenizer whose vocabulary is numbered from 1
    has one row more than the vocabulary has words, and its row 0 is zero
    when the other rows were drawn at random. *)
Lemma build_matrix_shape self ws we w m out w' :
  vocab_inv self ws ->
  Tokenizer.build_matrix self we w = (Ok (m, out), w') ->
  Np.nrows m = Z.of_nat (length (Tokenizer.vocab self)) + 1
  /\ (WordEmbedding.oov_init we = WordEmbedding.rand ->
      nth_error (Np.rows m) 0 = Some (Np.zeros1 (WordEmbedding.dimensions we))).
Proof.
  intros [Hnd Hv Hr Hn] Hbuild.
  assert (Hpos : Forall (fun p : string * Z => 1 <= snd p) (Tokenizer.vocab self))
    by (rewrite Hv; apply enum_from_positive; lia).
  assert (Hlen : Z.of_nat (length (Tokenizer.vocab self)) + 1 = Tokenizer.n_words self + 1)
    by (now rewrite Hv, enum_from_length, Hn).
  rewrite Hlen. unfold Tokenizer.build_matrix in Hbuild.
  assert (Hrest : forall m0 w0,
             match Tokenizer.vocab self, WordEmbedding.vocab we with
             | [], _ => (Ok (m0, []), w0)
             | _ :: _, None => (Raise TypeError, w0)
             | items, Some wv => Tokenizer.fill_rows we wv items m0 [] w0
             end = (Ok (m, out), w') ->
             Np.nrows m = Np.nrows m0
             /\ nth_error (Np.rows m) 0 = nth_error (Np.rows m0) 0).
  { intros m0 w0 H. destruct (Tokenizer.vocab self) as [|p items] eqn:Evoc.
    - inversion H. auto.
    - destruct (WordEmbedding.vocab we) as [wv|]; [|discriminate].
      eapply fill_rows_keeps_row0; eauto. }
  destruct (WordEmbedding.oov_init we).
  - destruct (WordEmbedding.default_rng (WordEmbedding.random_state we) w)
      as [[g|e] w1]; [|discriminate].
    destruct (Np.setitem _ 0 _) as [m0|e] eqn:Eset; [|discriminate].
    destruct (setitem_padding_row _ _ _ _ Eset) as [Hn0 [_ H0]].
    destruct (Hrest _ _ Hbuild) as [Hnm Hm0].
    rewrite uniform2_nrows in Hn0 by lia.
    split; [congruence | intros _; congruence].
  - destruct (Hrest _ _ Hbuild) as [Hnm _].
    rewrite zeros_nrows in Hnm by lia. split; [assumption | discriminate].
Qed.
End WeightMatrix.

(** C7.  Whenever [create_weight_matrix] hands a matrix back, for a
    fitted tokenizer and any store, the matrix has one row more than the
    vocabulary has entries, and if the store was made with
    [oov_init='rand'] its row 0 is the zero vector of length
    [dimensions]. *)
Theorem weight_matrix_rows_and_padding_row {P : Pipeline} {NP : Numpy}
    (oov : option string) (c : list string) (cs : list (list string))
    (we : WordEmbedding.t) (w : nat)
    (m : Np.ndarray) (out : list string) (w' : nat) :
  Tokenizer.create_weight_matrix (fitted oov c cs) (Tokenizer.a_WordEmbedding we) true w
  = (Ok (Tokenizer.ret_pair m out), w') ->
  Np.nrows m = Z.of_nat (length (Tokenizer.vocab (fitted oov c cs))) + 1
  /\ (WordEmbedding.oov_init we = WordEmbedding.rand ->
      nth_error (Np.rows m) 0 = Some (Np.zeros1 (WordEmbedding.dimensions we))
      /\ length (Np.zeros1 (WordEmbedding.dimensions we))
         = Z.to_nat (WordEmbedding.dimensions we)).
Proof.
  intros H. unfold Tokenizer.create_weight_matrix in H.
  destruct (Tokenizer.build_matrix (fitted oov c cs) we w) as [[[m0 out0]|e] w0] eqn:Eb;
    [|discriminate].
  inversion H; subst.
  destruct (fitted_inv oov c cs) as [Hinv _].
  destruct (build_matrix_shape _ _ _ _ _ _ _ Hinv Eb) as [Hrows Hzero].
  split; [assumption|]. intros Hrand. split; [auto | apply zeros1_length].
Qed.

Section WeightMatrixReturns.
Context {NP : Numpy}.

Lemma fill_rows_returns we wv items : forall m out w,
  well_loaded we ->
  WordEmbedding.oov_init we = WordEmbedding.zero_init
  \/ WordEmbedding.random_state we = WordEmbedding.np_random ->
  Np.ncols m = Z.to_nat (WordEmbedding.dimensions we) ->
  Forall (fun p => 1 <= snd p < Np.nrows m) items ->
  exists m' out' w', Tokenizer.fill_rows we wv items m out w = (Ok (m', out'), w').
Proof.
  induction items as [|[word index] items IH]; intros m out w Hwe Hrng Hc Hitems.
  - cbn. eauto.
  - inversion Hitems as [|? ? Hindex Hitems']; subst. cbn in Hindex.
    cbn [Tokenizer.fill_rows].
    destruct (get_returns we word true w Hwe Hrng) as [vec [w1 [Hget Hlen]]].
    rewrite Hget, setitem_fitting_row by (try lia; congruence).
    apply IH; auto. unfold Np.nrows in *. cbn. now rewrite replace_nth_length.
Qed.

(** For a tokenizer whose vocabulary is numbered from 1 and a store
    whose vocabulary points into its array, the matrix is built, as long
    as a generator can be made when one is needed. *)
Lemma build_matrix_returns self ws we w :
  vocab_inv self ws -> well_loaded we ->
  WordEmbedding.oov_init we = WordEmbedding.zero_init
  \/ WordEmbedding.random_state we = WordEmbedding.np_random ->
  exists m out w', Tokenizer.build_matrix self we w = (Ok (m, out), w').
Proof.
  intros [Hnd Hv Hr Hn] Hwe Hrng.
  assert (Hrest : forall m0 w0,
             Np.ncols m0 = Z.to_nat (WordEmbedding.dimensions we) ->
             Np.nrows m0 = Tokenizer.n_words self + 1 ->
             exists m out w',
               match Tokenizer.vocab self, WordEmbedding.vocab we with
               | [], _ => (Ok (m0, []), w0)
               | _ :: _, None => (Raise TypeError, w0)
               | items, Some wv => Tokenizer.fill_rows we wv items m0 [] w0
               end = (Ok (m, out), w')).
  { intros m0 w0 Hc Hrows.
    assert (Hitems : Forall (fun p => 1 <= snd p < Np.nrows m0) (Tokenizer.vocab self)).
    { rewrite Hv, Hrows, Hn. eapply Forall_impl; [|apply enum_from_bounds].
      cbv beta. intros p Hp. lia. }
    destruct Hwe as [me [wv [Hme [Hwv Hwe]]]]. rewrite Hwv.
    destruct (Tokenizer.vocab self) as [|p items] eqn:Evoc; [eauto|].
    apply fill_rows_returns; auto. exists me, wv. auto. }
  unfold Tokenizer.build_matrix.
  assert (Hnw : 0 <= Tokenizer.n_words self) by lia.
  destruct (WordEmbedding.oov_init we) eqn:Eoi.
  - destruct Hrng as [Hz | Hrs]; [discriminate|]. rewrite Hrs. cbn [WordEmbedding.default_rng].
    rewrite setitem_fitting_row.
    + apply Hrest; [reflexivity|]. unfold Np.nrows. cbn.
      rewrite replace_nth_length, length_map, length_seq. lia.
    + rewrite uniform2_nrows; lia.
    + apply zeros1_length.
  - apply Hrest; [reflexivity | apply zeros_nrows; lia].
Qed.

Lemma load_well_loaded self ls :
  0 < WordEmbedding.dimensions self ->
  well_loaded (snd (WordEmbedding.load self (WordEmbedding.Lines ls))).
Proof.
  intros Hd. rewrite load_Lines.
  eapply load_lines_well_loaded; cbn [WordEmbedding.embedding WordEmbedding.vocab
                                        WordEmbedding.reverse_vocab WordEmbedding.dimensions];
    try reflexivity; try discriminate; try assumption; try lia.
  - rewrite empty_nrows; lia.
  - cbn. apply Forall_forall. intros r Hr. apply repeat_spec in Hr. subst r.
    apply repeat_length.
  - constructor.
Qed.

(** X19.  A fitted tokenizer and a store made by [__init__] and loaded
    from a file always get their matrix, unless the store was made with
    [oov_init='rand'] and a seed or a [RandomState] object:
    [create_weight_matrix] returns, with either value of the flag, when
    the store was made with [oov_init='zero'] or [random_state] unset. *)
Lemma create_weight_matrix_returns {P : Pipeline} oov c cs dims oi rs self ls loaded flag w :
  WordEmbedding.init dims oi rs = Ok self ->
  WordEmbedding.load self (WordEmbedding.Lines ls) = (Ok tt, loaded) ->
  oi = "zero" \/ rs = WordEmbedding.arg_None ->
  exists r w',
    Tokenizer.create_weight_matrix (fitted oov c cs) (Tokenizer.a_WordEmbedding loaded) flag w
    = (Ok r, w').
Proof.
  intros Hinit Hload Hrng.
  destruct (init_unloaded _ _ _ _ Hinit) as [_ [_ [_ [Hdim Hrange]]]].
  assert (Hwl : well_loaded loaded).
  { replace loaded with (snd (WordEmbedding.load self (WordEmbedding.Lines ls)))
      by now rewrite Hload.
    apply load_well_loaded. lia. }
  assert (Hkeep : WordEmbedding.oov_init loaded = WordEmbedding.oov_init self
                  /\ WordEmbedding.random_state loaded = WordEmbedding.random_state self).
  { replace loaded with (snd (WordEmbedding.load self (WordEmbedding.Lines ls)))
      by now rewrite Hload.
    rewrite load_Lines. clear.
    generalize (Some (Np.empty (Z.of_nat (length ls)) (WordEmbedding.dimensions self))).
    generalize (Some (@nil (string * Z))). generalize (Some (@nil (Z * string))).
    generalize 0. revert self.
    induction ls as [|line ls IH]; intros self i rv v e; cbn [WordEmbedding.load_lines].
    - auto.
    - destruct (split line) as [|word fields]; [auto|].
      destruct (Np.floats fields); [|auto]. cbn.
      destruct e as [m|]; [|auto]. destruct v as [v|]; [|auto].
      destruct rv as [rv|]; [|auto].
      destruct (Np.setitem m i a); [|auto].
      match goal with
      | |- context [WordEmbedding.load_lines ?s ?j ls] =>
          change s with (WordEmbedding.mk (WordEmbedding.embedding s) (WordEmbedding.vocab s)
                           (WordEmbedding.reverse_vocab s)
                           (WordEmbedding.oov_init self) (WordEmbedding.random_state self)
                           (WordEmbedding.dimensions self))
      end.
      cbn [WordEmbedding.embedding WordEmbedding.vocab WordEmbedding.reverse_vocab].
      apply (IH (WordEmbedding.mk None None None (WordEmbedding.oov_init self)
                   (WordEmbedding.random_state self) (WordEmbedding.dimensions self))). }
  assert (Hrng' : WordEmbedding.oov_init loaded = WordEmbedding.zero_init
                  \/ WordEmbedding.random_state loaded = WordEmbedding.np_random).
  { destruct Hkeep as [-> ->]. unfold WordEmbedding.init in Hinit.
    destruct Hrng as [-> | ->].
    - left. cbn in Hinit. destruct rs; cbn in Hinit; try discriminate;
        destruct ((50 <=? dims) && (dims <? 301)); inversion Hinit; reflexivity.
    - right. destruct (String.eqb oi "zero"); [|destruct (String.eqb oi "rand")];
        cbn in Hinit; try discriminate;
        destruct ((50 <=? dims) && (dims <? 301)); inversion Hinit; reflexivity. }
  destruct (fitted_inv oov c cs) as [Hinv _].
  destruct (build_matrix_returns _ _ loaded w Hinv Hwl Hrng') as [m [out [w' Hb]]].
  unfold Tokenizer.create_weight_matrix. rewrite Hb. destruct flag; eauto.
Qed.
End WeightMatrixReturns.

Lemma weight_matrix_rows_and_padding_row_witness :
  Tokenizer.create_weight_matrix Examples.tokenizer_cat
    (Tokenizer.a_WordEmbedding Examples.store_rand_loaded) true 0
  = (Ok (Tokenizer.ret_pair Examples.matrix_rand ["cat"; "sat"]), 3%nat)
  /\ Np.nrows Examples.matrix_rand
     = Z.of_nat (length (Tokenizer.vocab Examples.tokenizer_cat)) + 1
  /\ (WordEmbedding.oov_init Examples.store_rand_loaded = WordEmbedding.rand ->
      nth_error (Np.rows Examples.matrix_rand) 0
      = Some (Np.zeros1 (NP := Plain.numpy) (WordEmbedding.dimensions Examples.store_rand_loaded))
      /\ length (Np.zeros1 (NP := Plain.numpy) (WordEmbedding.dimensions Examples.store_rand_loaded))
         = Z.to_nat (WordEmbedding.dimensions Examples.store_rand_loaded)).
Proof.
  assert (H : Tokenizer.create_weight_matrix Examples.tokenizer_cat
                (Tokenizer.a_WordEmbedding Examples.store_rand_loaded) true 0
              = (Ok (Tokenizer.ret_pair Examples.matrix_rand ["cat"; "sat"]), 3%nat))
    by reflexivity.
  split; [exact H|].
  exact (weight_matrix_rows_and_padding_row
           (P := Plain.whitespace) (NP := Plain.numpy)
           None ["The cat sat"] [] Examples.store_rand_loaded
           0%nat Examples.matrix_rand ["cat"; "sat"] 3%nat H).
Defined.

(** With the flag off, whatever [create_weight_matrix] returns is its
    own argument, never the matrix. *)
Lemma create_weight_matrix_flag_off {NP : Numpy} self we w r w' :
  Tokenizer.create_weight_matrix self (Tokenizer.a_WordEmbedding we) false w = (Ok r, w') ->
  r = Tokenizer.ret_word_embedding we.
Proof.
  unfold Tokenizer.create_weight_matrix.
  destruct (Tokenizer.build_matrix self we w) as [[[m out]|e] w0]; [|discriminate].
  intros H. now inversion H.
Qed.

(** C1, at an input where the code departs from it: the flag is false.
    For the tokenizer fitted on "The cat sat" and the 50-dimensional
    zero-initialised store loaded from the one-line file "the 0.5",
    [create_weight_matrix] with [return_not_in_wordembedding=False]
    returns the store it was given, not the matrix it has built; with the
    flag on, the same call returns the matrix and the list of the words
    the store lacks. *)
Theorem create_weight_matrix_returns_store_when_flag_is_off :
  Tokenizer.create_weight_matrix Examples.tokenizer_cat
    (Tokenizer.a_WordEmbedding Examples.store_zero_loaded) false 0
  = (Ok (Tokenizer.ret_word_embedding Examples.store_zero_loaded), 0%nat)
  /\ Tokenizer.create_weight_matrix Examples.tokenizer_cat
       (Tokenizer.a_WordEmbedding Examples.store_zero_loaded) true 0
     = (Ok (Tokenizer.ret_pair Examples.matrix_zero ["cat"; "sat"]), 0%nat)
  /\ WordEmbedding.load Examples.store_zero Examples.one_value_file
     = (Ok tt, Examples.store_zero_loaded).
Proof.
  repeat split; reflexivity.
Qed.

(** * Further properties of the code *)

(** ** The frequency table, word by word *)

Lemma keys_sset {V} (d : list (string * V)) k v :
  map fst (sset d k v) = learn (map fst d) k.
Proof.
  unfold learn. induction d as [|[k' v'] d IH]; cbn [Dict.set map fst existsb].
  - reflexivity.
  - rewrite (String.eqb_sym k k'). destruct (String.eqb k' k) eqn:E; cbn [orb map fst].
    + reflexivity.
    + rewrite IH. destruct (existsb (String.eqb k) (map fst d)); reflexivity.
Qed.

Lemma sget_sset {V} (d : list (string * V)) k v k' :
  sget (sset d k v) k' = if String.eqb k k' then Some v else sget d k'.
Proof.
  destruct (String.eqb_spec k k') as [<- | Hne].
  - apply sget_set_same.
  - now apply sget_set_other.
Qed.

Lemma counts_bump wc toks w :
  counts wc toks ->
  counts (match sget wc w with
          | None => sset wc w 1
          | Some c => sset wc w (c + 1)
          end)
         (toks ++ [w]).
Proof.
  intros [Hnd Hget].
  assert (Hkeys : forall v, NoDup (map fst (sset wc w v)))
    by (intros v; rewrite keys_sset; now apply learn_NoDup).
  assert (Hocc : forall w', occurrences (toks ++ [w]) w'
                            = (occurrences toks w' + if String.eqb w w' then 1 else 0)%nat).
  { intros w'. unfold occurrences. rewrite count_occ_app. cbn [count_occ].
    destruct (string_dec w w') as [-> | Hne].
    - now rewrite String.eqb_refl.
    - now rewrite (proj2 (String.eqb_neq w w') Hne). }
  pose proof (Hget w) as Hw.
  destruct (sget wc w) as [c|] eqn:Ec; (split; [apply Hkeys|]); intros w';
    rewrite sget_sset, Hocc; destruct (String.eqb_spec w w') as [<- | Hne];
    rewrite ?Nat.add_0_r; try apply Hget.
  - destruct (occurrences toks w) as [|n]; cbn in Hw; [discriminate|].
    inversion Hw. rewrite Nat.add_1_r. cbn [count_entry]. f_equal. lia.
  - destruct (occurrences toks w) as [|n]; cbn in Hw; [reflexivity | discriminate].
Qed.

Lemma keys_insert_desc x l k :
  In k (map fst (Tokenizer.insert_desc x l)) <-> k = fst x \/ In k (map fst l).
Proof.
  induction l as [|y l IH]; cbn [Tokenizer.insert_desc].
  - cbn. intuition.
  - destruct (snd x <? snd y); cbn [map In].
    + rewrite IH. intuition.
    + intuition.
Qed.

Lemma keys_sorted_desc l k :
  In k (map fst (Tokenizer.sorted_desc l)) <-> In k (map fst l).
Proof.
  induction l as [|x l IH]; cbn [Tokenizer.sorted_desc]; [tauto|].
  rewrite keys_insert_desc, IH. cbn. intuition.
Qed.

Lemma NoDup_insert_desc x l :
  ~ In (fst x) (map fst l) -> NoDup (map fst l) ->
  NoDup (map fst (Tokenizer.insert_desc x l)).
Proof.
  induction l as [|y l IH]; cbn [Tokenizer.insert_desc]; intros Hx Hnd.
  - cbn. constructor; [intros [] | constructor].
  - destruct (snd x <? snd y); cbn [map].
    + inversion Hnd as [|? ? Hy Hnd']; subst. constructor.
      * rewrite keys_insert_desc. intros [Heq | Hin]; [|contradiction].
        apply Hx. left. congruence.
      * apply IH; [|assumption]. intros Hin. apply Hx. now right.
    + now constructor.
Qed.

Lemma NoDup_sorted_desc l :
  NoDup (map fst l) -> NoDup (map fst (Tokenizer.sorted_desc l)).
Proof.
  induction l as [|x l IH]; cbn [Tokenizer.sorted_desc map]; intros Hnd; [constructor|].
  inversion Hnd as [|? ? Hx Hnd']; subst.
  apply NoDup_insert_desc; [now rewrite keys_sorted_desc | auto].
Qed.

Lemma sget_insert_desc x l k :
  ~ In (fst x) (map fst l) ->
  sget (Tokenizer.insert_desc x l) k = sget (x :: l) k.
Proof.
  induction l as [|[ky vy] l IH]; cbn [Tokenizer.insert_desc]; intros Hx; [reflexivity|].
  destruct (snd x <? snd (ky, vy)); [|reflexivity].
  destruct x as [kx vx]. cbn [Dict.get fst snd] in *.
  rewrite IH by (intros Hin; apply Hx; now right). cbn [Dict.get].
  destruct (String.eqb_spec ky k) as [-> | Hy]; [|reflexivity].
  destruct (String.eqb_spec kx k) as [-> | _]; [|reflexivity].
  exfalso. apply Hx. now left.
Qed.

(** Sorting a table with distinct words changes no lookup. *)
Lemma sget_sorted_desc l k :
  NoDup (map fst l) -> sget (Tokenizer.sorted_desc l) k = sget l k.
Proof.
  induction l as [|[kx vx] l IH]; cbn [Tokenizer.sorted_desc map fst]; intros Hnd;
    [reflexivity|].
  inversion Hnd as [|? ? Hx Hnd']; subst.
  rewrite sget_insert_desc by (cbn [fst]; now rewrite keys_sorted_desc).
  cbn [Dict.get]. now rewrite IH.
Qed.

Lemma counts_sorted_desc wc toks : counts wc toks -> counts (Tokenizer.sorted_desc wc) toks.
Proof.
  intros [Hnd Hget]. split; [now apply NoDup_sorted_desc|].
  intros w. now rewrite sget_sorted_desc.
Qed.

Section CountsOfFit.
Context {P : Pipeline}.

Lemma fit_token_words_count self token :
  Tokenizer.words_count (Tokenizer.fit_token self token)
  = match sget (Tokenizer.words_count self) (lower token) with
    | None => sset (Tokenizer.words_count self) (lower token) 1
    | Some c => sset (Tokenizer.words_count self) (lower token) (c + 1)
    end.
Proof.
  unfold Tokenizer.fit_token.
  now destruct (negb (smem (Tokenizer.vocab self) (lower token))).
Qed.

Lemma fold_fit_token_counts doc self toks :
  counts (Tokenizer.words_count self) toks ->
  counts (Tokenizer.words_count (fold_left Tokenizer.fit_token doc self))
         (toks ++ map lower doc).
Proof.
  revert self toks. induction doc as [|token doc IH]; intros self toks H; cbn [fold_left map].
  - now rewrite app_nil_r.
  - replace (toks ++ lower token :: map lower doc)
      with ((toks ++ [lower token]) ++ map lower doc) by now rewrite <- app_assoc.
    apply IH. rewrite fit_token_words_count. now apply counts_bump.
Qed.

Lemma fold_fit_text_counts texts self toks :
  counts (Tokenizer.words_count self) toks ->
  counts (Tokenizer.words_count (fold_left Tokenizer.fit_text texts self))
         (toks ++ corpus_tokens texts).
Proof.
  revert self toks. induction texts as [|text texts IH]; intros self toks H;
    cbn [fold_left corpus_tokens flat_map].
  - now rewrite app_nil_r.
  - rewrite app_assoc. apply IH. now apply fold_fit_token_counts.
Qed.

Lemma fit_counts self texts toks :
  counts (Tokenizer.words_count self) toks ->
  counts (Tokenizer.words_count (Tokenizer.fit self texts)) (toks ++ corpus_tokens texts).
Proof.
  intros H. unfold Tokenizer.fit. cbn [Tokenizer.words_count].
  apply counts_sorted_desc, fold_fit_text_counts.
  now destruct (Tokenizer.oov_token self).
Qed.

Lemma fit_all_counts cs self toks :
  counts (Tokenizer.words_count self) toks ->
  counts (Tokenizer.words_count (fit_all self cs)) (toks ++ corpus_tokens (concat cs)).
Proof.
  unfold fit_all. revert self toks.
  induction cs as [|c cs IH]; intros self toks H; cbn [fold_left concat].
  - now rewrite app_nil_r.
  - unfold corpus_tokens. rewrite flat_map_app, app_assoc.
    apply IH. now apply fit_counts.
Qed.
End CountsOfFit.

(** X1.  After any series of [fit] calls on a new tokenizer, the
    frequency table has one entry for each distinct lowercase token of the
    fitted texts, holding the number of its occurrences, and no entry for
    any other word (the OOV token included, unless it occurs). *)
Theorem words_count_counts_occurrences {P : Pipeline}
    (oov : option string) (cs : list (list string)) (w : string) :
  NoDup (map fst (Tokenizer.words_count (fit_all (Tokenizer.init oov) cs)))
  /\ sget (Tokenizer.words_count (fit_all (Tokenizer.init oov) cs)) w
     = count_entry (occurrences (corpus_tokens (concat cs)) w).
Proof.
  assert (H0 : counts (Tokenizer.words_count (Tokenizer.init oov)) []).
  { split; [constructor | reflexivity]. }
  destruct (fit_all_counts cs _ _ H0) as [Hnd Hget]. split; [exact Hnd | apply Hget].
Qed.

(** ** The order of the frequency table *)

Lemma insert_desc_sorted x l :
  by_descending_count l -> by_descending_count (Tokenizer.insert_desc x l).
Proof.
  unfold by_descending_count.
  induction l as [|y l IH]; cbn [Tokenizer.insert_desc]; intros Hs.
  - repeat constructor.
  - inversion Hs as [|? ? Hl Hhd]; subst.
    destruct (Z.ltb_spec (snd x) (snd y)) as [Hlt | Hge].
    + constructor; [now apply IH|].
      destruct l as [|z l]; cbn [Tokenizer.insert_desc].
      * constructor. lia.
      * inversion Hhd; subst. destruct (snd x <? snd z); constructor; lia.
    + constructor; [assumption|]. constructor. lia.
Qed.

Lemma sorted_desc_sorted l : by_descending_count (Tokenizer.sorted_desc l).
Proof.
  induction l as [|x l IH]; cbn [Tokenizer.sorted_desc].
  - constructor.
  - now apply insert_desc_sorted.
Qed.

(** X2.  Whatever the tokenizer held, after [fit] the frequency table is
    in order of non-increasing count. *)
Theorem fit_orders_words_count_by_descending_count {P : Pipeline}
    (self : Tokenizer.t) (texts : list string) :
  by_descending_count (Tokenizer.words_count (Tokenizer.fit self texts)).
Proof.
  unfold Tokenizer.fit. cbn [Tokenizer.words_count]. apply sorted_desc_sorted.
Qed.

Lemma filter_insert_desc c x l :
  filter (fun p => snd p =? c) (Tokenizer.insert_desc x l)
  = filter (fun p => snd p =? c) (x :: l).
Proof.
  induction l as [|y l IH]; cbn [Tokenizer.insert_desc]; [reflexivity|].
  destruct (Z.ltb_spec (snd x) (snd y)) as [Hlt | Hge]; [|reflexivity].
  cbn [filter] in *. rewrite IH.
  destruct (Z.eqb_spec (snd x) c) as [Hx | Hx]; [|reflexivity].
  destruct (Z.eqb_spec (snd y) c) as [Hy | Hy]; [lia | reflexivity].
Qed.

(** The sort is stable: the entries of one count keep their order. *)
Lemma filter_sorted_desc c l :
  filter (fun p => snd p =? c) (Tokenizer.sorted_desc l) = filter (fun p => snd p =? c) l.
Proof.
  induction l as [|x l IH]; cbn [Tokenizer.sorted_desc]; [reflexivity|].
  rewrite filter_insert_desc. cbn [filter]. now rewrite IH.
Qed.

Lemma filter_by_value (f : string -> Z) c (l : list (string * Z)) :
  (forall p, In p l -> snd p = f (fst p)) ->
  map fst (filter (fun p => snd p =? c) l) = filter (fun w => f w =? c) (map fst l).
Proof.
  induction l as [|p l IH]; intros H; cbn [filter map]; [reflexivity|].
  rewrite (H p) by now left.
  destruct (f (fst p) =? c); cbn [map]; rewrite IH; auto;
    intros q Hq; apply H; now right.
Qed.

Section OrderOfFit.
Context {P : Pipeline}.

Lemma fold_fit_token_keys doc self :
  map fst (Tokenizer.words_count (fold_left Tokenizer.fit_token doc self))
  = fold_left learn (map lower doc) (map fst (Tokenizer.words_count self)).
Proof.
  revert self. induction doc as [|token doc IH]; intros self; cbn [fold_left map];
    [reflexivity|].
  rewrite IH, fit_token_words_count. f_equal.
  destruct (sget (Tokenizer.words_count self) (lower token)); apply keys_sset.
Qed.

Lemma fold_fit_text_keys texts self :
  map fst (Tokenizer.words_count (fold_left Tokenizer.fit_text texts self))
  = fold_left learn (corpus_tokens texts) (map fst (Tokenizer.words_count self)).
Proof.
  revert self. induction texts as [|text texts IH]; intros self;
    cbn [fold_left corpus_tokens flat_map]; [reflexivity|].
  rewrite IH, fold_left_app. f_equal. apply fold_fit_token_keys.
Qed.
End OrderOfFit.

(** X3.  After the first [fit] of a new tokenizer, words with the same
    count stand in the frequency table in order of first occurrence in
    the corpus: the sort by count is stable. *)
Theorem first_fit_breaks_ties_by_first_occurrence {P : Pipeline}
    (oov : option string) (texts : list string) (c : Z) :
  map fst (filter (fun p => snd p =? c)
             (Tokenizer.words_count (Tokenizer.fit (Tokenizer.init oov) texts)))
  = filter (fun w => Z.of_nat (occurrences (corpus_tokens texts) w) =? c)
      (first_seen (corpus_tokens texts)).
Proof.
  unfold Tokenizer.fit. cbn [Tokenizer.words_count]. rewrite filter_sorted_desc.
  set (start := match Tokenizer.oov_token (Tokenizer.init oov) with
                | Some o => _
                | None => _
                end).
  assert (Hstart : Tokenizer.words_count start = []) by (subst start; now destruct oov).
  assert (Hc : counts (Tokenizer.words_count (fold_left Tokenizer.fit_text texts start))
                      (corpus_tokens texts)).
  { change (corpus_tokens texts) with ([] ++ corpus_tokens texts).
    apply fold_fit_text_counts. rewrite Hstart. split; [constructor | reflexivity]. }
  destruct Hc as [Hnd Hget].
  rewrite (filter_by_value (fun w => Z.of_nat (occurrences (corpus_tokens texts) w))).
  - rewrite fold_fit_text_keys, Hstart, fold_learn_first_seen. cbn [map app].
    now rewrite (filter_all (fun _ => negb (existsb _ []))).
  - intros [k v] Hin. cbn [fst snd].
    apply (In_get _ String.eqb_eq _ _ _ Hnd) in Hin. rewrite Hget in Hin.
    destruct (occurrences (corpus_tokens texts) k); cbn in Hin; [discriminate|].
    now inversion Hin.
Qed.

(** ** Fitting again *)

Lemma sget_enum_from_app k ws tail w i :
  sget (enum_from k ws) w = Some i -> sget (enum_from k (ws ++ tail)) w = Some i.
Proof.
  revert k. induction ws as [|x ws IH]; intros k; cbn [enum_from app Dict.get];
    [discriminate|].
  destruct (String.eqb x w); [trivial | apply IH].
Qed.

Lemma fold_learn_known toks ws :
  (forall w, In w toks -> In w ws) -> fold_left learn toks ws = ws.
Proof.
  induction toks as [|t toks IH]; intros H; cbn [fold_left]; [reflexivity|].
  unfold learn at 2. rewrite (proj2 (existsb_eqb_In t ws)) by (apply H; now left).
  apply IH. intros w Hw. apply H. now right.
Qed.

Section FittingAgain.
Context {P : Pipeline}.

(** What one more [fit] does to the vocabulary of a fitted tokenizer. *)
Lemma fit_fitted_inv oov c cs texts :
  let ws := vocabulary_words oov (corpus_tokens (c ++ concat cs)) in
  vocab_inv (fitted oov c cs) ws
  /\ vocab_inv (Tokenizer.fit (fitted oov c cs) texts)
               (fold_left learn (corpus_tokens texts) ws).
Proof.
  intros ws. destruct (fitted_inv oov c cs) as [Hinv Ho]. split; [exact Hinv|].
  apply fit_inv; [exact Hinv|]. rewrite Ho. unfold ws, vocabulary_words. eauto.
Qed.
End FittingAgain.

(** X4.  A further [fit] never renumbers: every word that has an index in
    a fitted tokenizer keeps that index whatever texts are fitted next. *)
Theorem fit_keeps_assigned_indices {P : Pipeline}
    (oov : option string) (c : list string) (cs : list (list string))
    (texts : list string) (w : string) (i : Z) :
  sget (Tokenizer.vocab (fitted oov c cs)) w = Some i ->
  sget (Tokenizer.vocab (Tokenizer.fit (fitted oov c cs) texts)) w = Some i.
Proof.
  destruct (fit_fitted_inv oov c cs texts) as [[_ Hv _ _] [_ Hv' _ _]].
  rewrite Hv, Hv', fold_learn_first_seen. apply sget_enum_from_app.
Qed.

Lemma fit_keeps_assigned_indices_witness :
  sget (Tokenizer.vocab (fitted (P := Plain.whitespace) None ["The cat sat"] [])) "cat"
  = Some 2
  /\ sget (Tokenizer.vocab
             (Tokenizer.fit (P := Plain.whitespace) (fitted (P := Plain.whitespace) None ["The cat sat"] [])
                ["a dog sat"])) "cat"
     = Some 2.
Proof.
  assert (H : sget (Tokenizer.vocab (fitted (P := Plain.whitespace) None ["The cat sat"] []))
                "cat" = Some 2) by reflexivity.
  split; [exact H|].
  exact (fit_keeps_assigned_indices (P := Plain.whitespace)
           None ["The cat sat"] [] ["a dog sat"] "cat" 2 H).
Defined.

(** X5.  Fitting texts whose tokens are all in the vocabulary already
    changes neither the vocabulary, nor the reverse vocabulary, nor the
    word counter: only the frequency table moves. *)
Theorem fit_on_known_words_keeps_vocabulary {P : Pipeline}
    (oov : option string) (c : list string) (cs : list (list string))
    (texts : list string) :
  (forall w, In w (corpus_tokens texts) ->
             smem (Tokenizer.vocab (fitted oov c cs)) w = true) ->
  Tokenizer.vocab (Tokenizer.fit (fitted oov c cs) texts)
  = Tokenizer.vocab (fitted oov c cs)
  /\ Tokenizer.reverse_vocab (Tokenizer.fit (fitted oov c cs) texts)
     = Tokenizer.reverse_vocab (fitted oov c cs)
  /\ Tokenizer.n_words (Tokenizer.fit (fitted oov c cs) texts)
     = Tokenizer.n_words (fitted oov c cs).
Proof.
  intros Hknown.
  destruct (fit_fitted_inv oov c cs texts) as [[_ Hv Hr Hn] [_ Hv' Hr' Hn']].
  rewrite Hv in Hknown.
  assert (Hfold : fold_left learn (corpus_tokens texts)
                    (vocabulary_words oov (corpus_tokens (c ++ concat cs)))
                  = vocabulary_words oov (corpus_tokens (c ++ concat cs))).
  { apply fold_learn_known. intros w Hw. apply existsb_eqb_In.
    rewrite <- (smem_enum_from 1). now apply Hknown. }
  rewrite Hfold in Hv', Hr', Hn'. rewrite Hv, Hv', Hr, Hr', Hn, Hn'. auto.
Qed.

Lemma fit_on_known_words_keeps_vocabulary_witness :
  (forall w, In w (corpus_tokens (P := Plain.whitespace) ["sat cat"]) ->
             smem (Tokenizer.vocab (fitted (P := Plain.whitespace) None ["The cat sat"] [])) w
             = true)
  /\ Tokenizer.vocab
       (Tokenizer.fit (P := Plain.whitespace) (fitted (P := Plain.whitespace) None ["The cat sat"] []) ["sat cat"])
     = Tokenizer.vocab (fitted (P := Plain.whitespace) None ["The cat sat"] []).
Proof.
  assert (H : forall w, In w (corpus_tokens (P := Plain.whitespace) ["sat cat"]) ->
                        smem (Tokenizer.vocab
                                (fitted (P := Plain.whitespace) None ["The cat sat"] [])) w
                        = true).
  { intros w [<- | [<- | []]]; reflexivity. }
  split; [exact H|].
  exact (proj1 (fit_on_known_words_keeps_vocabulary (P := Plain.whitespace)
                  None ["The cat sat"] [] ["sat cat"] H)).
Defined.

(** ** What the codec emits *)

Section CodecRange.
Context {P : Pipeline}.

Lemma doc_to_sequence_range self ws doc :
  vocab_inv self ws ->
  (forall o, Tokenizer.oov_token self = Some o -> In o ws) ->
  exists sequence,
    Tokenizer.doc_to_sequence self doc = Ok sequence
    /\ Forall (fun i => 1 <= i <= Tokenizer.n_words self) sequence
    /\ (length sequence <= length doc)%nat
    /\ (Tokenizer.oov_token self <> None -> length sequence = length doc).
Proof.
  intros [Hnd Hv Hr Hn] Hoov.
  assert (Hrange : forall w i, sget (Tokenizer.vocab self) w = Some i ->
                               1 <= i <= Tokenizer.n_words self).
  { intros w i Hi. rewrite Hv in Hi. apply sget_enum_from_range in Hi. lia. }
  induction doc as [|token doc [sequence [Henc [Hall [Hle Hlen]]]]];
    cbn [Tokenizer.doc_to_sequence length].
  - exists []. repeat split; auto.
  - destruct (sget (Tokenizer.vocab self) (lower token)) as [i|] eqn:Ei.
    + exists (i :: sequence). rewrite Henc. cbn [bind length].
      repeat split; [constructor; eauto | lia | intros H; now rewrite Hlen].
    + destruct (Tokenizer.oov_token self) as [o|] eqn:Eo.
      * destruct (In_sget_enum_from 1 ws o (Hoov o eq_refl)) as [i Hi].
        rewrite <- Hv in Hi. rewrite Hi. exists (i :: sequence). rewrite Henc.
        cbn [bind length].
        repeat split; [constructor; eauto | lia | intros H; now rewrite Hlen].
      * exists sequence. rewrite Henc. repeat split; [assumption | lia | congruence].
Qed.
End CodecRange.

(** X6.  On a fitted tokenizer [texts_to_sequences] returns one sequence
    per text, in order; every index it emits lies between 1 and
    [n_words]; a sequence is never longer than the text has tokens, and
    has exactly one index per token when an OOV token is configured. *)
Theorem texts_to_sequences_emits_vocabulary_indices {P : Pipeline}
    (oov : option string) (c : list string) (cs : list (list string))
    (T : list string) :
  exists sequences,
    Tokenizer.texts_to_sequences (fitted oov c cs) T = Ok sequences
    /\ Forall2
         (fun text sequence =>
            Forall (fun i => 1 <= i <= Tokenizer.n_words (fitted oov c cs)) sequence
            /\ (length sequence <= length (nlp text))%nat
            /\ (oov <> None -> length sequence = length (nlp text)))
         T sequences.
Proof.
  destruct (fitted_inv oov c cs) as [Hinv Ho].
  assert (Hoov : forall o, Tokenizer.oov_token (fitted oov c cs) = Some o ->
                           In o (vocabulary_words oov (corpus_tokens (c ++ concat cs)))).
  { intros o Eo. rewrite Ho in Eo. rewrite Eo, vocabulary_words_Some. now left. }
  induction T as [|text T [sequences [Henc Hall]]]; cbn [Tokenizer.texts_to_sequences].
  - exists []. split; [reflexivity | constructor].
  - destruct (doc_to_sequence_range _ _ (nlp text) Hinv Hoov)
      as [sequence [Hs [Hr [Hle Hlen]]]].
    exists (sequence :: sequences). rewrite Hs, Henc. split; [reflexivity|].
    constructor; [|assumption]. repeat split; auto. now rewrite <- Ho.
Qed.

(** ** Decoding *)

Lemma flat_map_all_kept {A} (keep : A -> bool) (other : list A) (l : list A) :
  (forall x, In x l -> keep x = true) ->
  flat_map (fun x => if keep x then [x] else other) l = l.
Proof.
  induction l as [|x l IH]; intros H; cbn [flat_map]; [reflexivity|].
  rewrite (H x) by now left. cbn [app]. f_equal. apply IH.
  intros y Hy. apply H. now right.
Qed.

Lemma sget_of_zget_flip_enum_from k ws w i :
  NoDup ws ->
  zget (map flip (enum_from k ws)) i = Some w -> sget (enum_from k ws) w = Some i.
Proof.
  revert k. induction ws as [|x ws IH]; intros k Hnd; cbn [enum_from map Dict.get];
    [discriminate|].
  inversion Hnd as [|? ? Hx Hnd']; subst. unfold flip at 1. cbn [fst snd].
  destruct (Z.eqb_spec k i) as [-> | Hne].
  - intros H. inversion H. subst. now rewrite String.eqb_refl.
  - intros H. pose proof (IH (k + 1) Hnd' H) as Hs.
    destruct (String.eqb_spec x w) as [-> | _]; [|exact Hs].
    exfalso. apply Hx. eapply sget_enum_from_In; eauto.
Qed.

(** X7.  Texts the tokenizer was fitted on are encoded without loss:
    decoding their sequences gives back their lowercase tokens joined by
    single blanks, nothing dropped and nothing replaced. *)
Theorem fitted_texts_round_trip_exactly {P : Pipeline}
    (oov : option string) (c : list string) (cs : list (list string))
    (T : list string) :
  incl T (c ++ concat cs) ->
  exists sequences,
    Tokenizer.texts_to_sequences (fitted oov c cs) T = Ok sequences
    /\ Tokenizer.sequences_to_texts (fitted oov c cs) sequences
       = map (fun text => String.concat " " (tokens text)) T.
Proof.
  intros Hincl. destruct (fitted_inv oov c cs) as [Hinv Ho].
  assert (Hoov : forall o, Tokenizer.oov_token (fitted oov c cs) = Some o ->
                           In o (vocabulary_words oov (corpus_tokens (c ++ concat cs)))).
  { intros o Eo. rewrite Ho in Eo. rewrite Eo, vocabulary_words_Some. now left. }
  assert (Hknown : forall text w, In text T -> In w (tokens text) ->
                                  smem (Tokenizer.vocab (fitted oov c cs)) w = true).
  { intros text w Htext Hw. destruct Hinv as [_ Hv _ _].
    rewrite Hv, smem_enum_from. apply existsb_eqb_In.
    unfold vocabulary_words. rewrite <- fold_learn_first_seen.
    apply fold_learn_In. right. unfold corpus_tokens. apply in_flat_map.
    exists text. split; [now apply Hincl | assumption]. }
  clear Hincl.
  induction T as [|text T IH]; cbn [Tokenizer.texts_to_sequences].
  - now exists [].
  - destruct IH as [sequences [Henc Hdec]].
    { intros t w Ht. apply Hknown. now right. }
    destruct (doc_round_trip _ _ (nlp text) Hinv Hoov) as [sequence [Hs Hw]].
    exists (sequence :: sequences). rewrite Hs, Henc. split; [reflexivity|].
    unfold Tokenizer.sequences_to_texts in *. cbn [map]. rewrite Hdec, Hw.
    f_equal. f_equal. apply flat_map_all_kept.
    intros w Hin. apply (Hknown text); [now left | exact Hin].
Qed.

Lemma fitted_texts_round_trip_exactly_witness :
  incl ["the cat"] (["The cat sat"; "the cat"] ++ concat [])
  /\ exists sequences,
       Tokenizer.texts_to_sequences (P := Plain.whitespace)
         (fitted (P := Plain.whitespace) None ["The cat sat"; "the cat"] []) ["the cat"]
       = Ok sequences
       /\ Tokenizer.sequences_to_texts
            (fitted (P := Plain.whitespace) None ["The cat sat"; "the cat"] []) sequences
          = map (fun text => String.concat " " (tokens (P := Plain.whitespace) text))
              ["the cat"].
Proof.
  assert (H : incl ["the cat"] (["The cat sat"; "the cat"] ++ concat [])).
  { intros t [<- | []]. right. now left. }
  split; [exact H|].
  exact (fitted_texts_round_trip_exactly (P := Plain.whitespace)
           None ["The cat sat"; "the cat"] [] ["the cat"] H).
Defined.

(** X8.  In a fitted tokenizer the vocabulary and the reverse vocabulary
    are inverse to each other: a word has index [i] exactly when index
    [i] stands for that word. *)
Theorem vocab_and_reverse_vocab_are_inverse {P : Pipeline}
    (oov : option string) (c : list string) (cs : list (list string))
    (w : string) (i : Z) :
  sget (Tokenizer.vocab (fitted oov c cs)) w = Some i
  <-> zget (Tokenizer.reverse_vocab (fitted oov c cs)) i = Some w.
Proof.
  destruct (fitted_inv oov c cs) as [[Hnd Hv Hr Hn] _]. rewrite Hv, Hr. split.
  - apply zget_flip_enum_from.
  - now apply sget_of_zget_flip_enum_from.
Qed.

(** X9.  Decoding an index that no word has (0, a negative number, or one
    above [n_words]) on a fitted tokenizer: without an OOV token the
    index is skipped, with one it reads as the OOV token. *)
Theorem sequences_to_texts_on_unassigned_index {P : Pipeline}
    (oov : option string) (c : list string) (cs : list (list string))
    (i : Z) (sequence : list Z) :
  ~ (1 <= i <= Tokenizer.n_words (fitted oov c cs)) ->
  Tokenizer.sequence_to_words (fitted oov c cs) (i :: sequence)
  = reserved oov ++ Tokenizer.sequence_to_words (fitted oov c cs) sequence.
Proof.
  intros Hout. destruct (fitted_inv oov c cs) as [[Hnd Hv Hr Hn] Ho].
  cbn [Tokenizer.sequence_to_words]. rewrite Hr, zget_flip_enum_from_out by lia.
  rewrite Ho. now destruct oov.
Qed.

Lemma sequences_to_texts_on_unassigned_index_witness :
  ~ (1 <= 0 <= Tokenizer.n_words (fitted (P := Plain.whitespace) (Some "unk") ["a b"] []))
  /\ Tokenizer.sequence_to_words
       (fitted (P := Plain.whitespace) (Some "unk") ["a b"] []) [0; 2]
     = ["unk"; "a"].
Proof.
  assert (H : ~ (1 <= 0 <= Tokenizer.n_words
                              (fitted (P := Plain.whitespace) (Some "unk") ["a b"] [])))
    by lia.
  split; [exact H|].
  exact (sequences_to_texts_on_unassigned_index (P := Plain.whitespace)
           (Some "unk") ["a b"] [] 0 [2] H).
Defined.

(** X10.  A tokenizer without OOV token that was never fitted knows no
    word: it encodes every text as the empty sequence and decodes every
    sequence as the empty string, without raising. *)
Theorem unfitted_tokenizer_without_oov_is_silent {P : Pipeline}
    (T : list string) (sequences : list (list Z)) :
  Tokenizer.texts_to_sequences (Tokenizer.init None) T = Ok (map (fun _ => []) T)
  /\ Tokenizer.sequences_to_texts (Tokenizer.init None) sequences
     = map (fun _ => EmptyString) sequences.
Proof.
  split.
  - induction T as [|text T IH]; cbn [Tokenizer.texts_to_sequences map]; [reflexivity|].
    assert (Hdoc : forall doc, Tokenizer.doc_to_sequence (Tokenizer.init None) doc = Ok [])
      by (intros doc; induction doc; cbn; auto).
    now rewrite Hdoc, IH.
  - unfold Tokenizer.sequences_to_texts. apply map_ext. intros sequence.
    assert (Hw : Tokenizer.sequence_to_words (Tokenizer.init None) sequence = [])
      by (induction sequence; cbn; auto).
    now rewrite Hw.
Qed.

(** ** What a store holds after [load] *)

Lemma nth_error_replace_nth_same {A} (l : list A) k x :
  (k < length l)%nat -> nth_error (Np.replace_nth l k x) k = Some x.
Proof.
  revert k. induction l as [|y l IH]; intros [|k] H; cbn in *; try lia; auto.
  apply IH. lia.
Qed.

Section LoadResult.
Context {NP : Numpy}.

Lemma parsed_line_word cols line word row :
  parsed_line cols line = Some (word, row) ->
  line_word line = word /\ line_row cols line = row.
Proof.
  intros H. unfold line_row. rewrite H. split; [|reflexivity].
  unfold parsed_line, line_word in *.
  destruct (split line) as [|w fields]; [discriminate|].
  destruct (Np.floats fields) as [vec|e]; [|discriminate].
  destruct (length vec =? cols)%nat; [now inversion H|].
  destruct vec as [|x [|y vec]]; try discriminate. now inversion H.
Qed.

(** [load] never touches the settings made by the constructor. *)
Lemma load_lines_keeps_configuration ls : forall self i,
  WordEmbedding.oov_init (snd (WordEmbedding.load_lines self i ls))
  = WordEmbedding.oov_init self
  /\ WordEmbedding.random_state (snd (WordEmbedding.load_lines self i ls))
     = WordEmbedding.random_state self
  /\ WordEmbedding.dimensions (snd (WordEmbedding.load_lines self i ls))
     = WordEmbedding.dimensions self.
Proof.
  induction ls as [|line ls IH]; intros self i; cbn [WordEmbedding.load_lines]; [auto|].
  destruct (split line) as [|word fields]; [auto|].
  destruct (Np.floats fields) as [vec|e]; [|auto].
  destruct (WordEmbedding.embedding self) as [m|]; [|auto].
  destruct (WordEmbedding.vocab self) as [v|]; [|auto].
  destruct (WordEmbedding.reverse_vocab self) as [rv|]; [|auto].
  destruct (Np.setitem m i vec) as [m'|e]; [|auto].
  match goal with
  | |- context [WordEmbedding.load_lines ?s (i + 1) ls] => destruct (IH s (i + 1)) as [H1 [H2 H3]]
  end.
  rewrite H1, H2, H3. auto.
Qed.

(** What the loop leaves when it runs to the end: line [k] of [ls] is
    row [i + k] and entry [i + k] of the reverse vocabulary, and a word
    points to the last line that starts with it. *)
Lemma load_lines_result ls : forall self i m v rv self',
  WordEmbedding.embedding self = Some m ->
  WordEmbedding.vocab self = Some v ->
  WordEmbedding.reverse_vocab self = Some rv ->
  0 <= i -> i + Z.of_nat (length ls) <= Np.nrows m ->
  Np.ncols m = Z.to_nat (WordEmbedding.dimensions self) ->
  0 < WordEmbedding.dimensions self ->
  WordEmbedding.load_lines self i ls = (Ok tt, self') ->
  exists m' v' rv',
    WordEmbedding.embedding self' = Some m'
    /\ WordEmbedding.vocab self' = Some v'
    /\ WordEmbedding.reverse_vocab self' = Some rv'
    /\ Np.ncols m' = Np.ncols m
    /\ length (Np.rows m') = length (Np.rows m)
    /\ (forall k line, nth_error ls k = Some line ->
          nth_error (Np.rows m') (Z.to_nat i + k) = Some (line_row (Np.ncols m) line))
    /\ (forall j, (j < Z.to_nat i)%nat -> nth_error (Np.rows m') j = nth_error (Np.rows m) j)
    /\ (forall k line, nth_error ls k = Some line ->
          zget rv' (i + Z.of_nat k) = Some (line_word line))
    /\ (forall j, j < i \/ i + Z.of_nat (length ls) <= j -> zget rv' j = zget rv j)
    /\ (forall w, (forall line, In line ls -> line_word line <> w) -> sget v' w = sget v w)
    /\ (forall k line, nth_error ls k = Some line ->
          (forall k' line', nth_error ls k' = Some line' -> (k < k')%nat ->
                            line_word line' <> line_word line) ->
          sget v' (line_word line) = Some (i + Z.of_nat k)).
Proof.
  induction ls as [|line ls IH]; intros self i m v rv self' Hm Hv Hrv Hi Hn Hc Hd Hrun.
  - cbn in Hrun. inversion Hrun; subst self'. exists m, v, rv.
    repeat split; auto; intros [|k] l Hk; discriminate.
  - cbn [length] in Hn. rewrite Nat2Z.inj_succ in Hn.
    assert (Hlt : (Z.to_nat i < length (Np.rows m))%nat) by (unfold Np.nrows in Hn; lia).
    pose proof (load_lines_cons self i line m v rv Hm Hv Hrv ltac:(lia) Hc Hd) as Hstep.
    destruct (parsed_line (Np.ncols m) line) as [[word row]|] eqn:Ep.
    2:{ destruct Hstep as [_ Heq]. rewrite Heq in Hrun. discriminate. }
    destruct Hstep as [_ [Hrow Heq]]. rewrite Heq in Hrun.
    destruct (parsed_line_word _ _ _ _ Ep) as [Hword Hlrow].
    match type of Hrun with
    | WordEmbedding.load_lines ?s _ _ = _ =>
        pose proof (IH s (i + 1) _ _ _ self' eq_refl eq_refl eq_refl) as IH'
    end.
    unfold Np.nrows in *.
    cbn [WordEmbedding.dimensions Np.ncols Np.rows] in IH'.
    rewrite replace_nth_length in IH'.
    destruct (IH' ltac:(lia) ltac:(lia) Hc Hd Hrun)
      as [m' [v' [rv' [Hm' [Hv' [Hrv' [Hc' [Hlen [Hrows [Hlow [Hrev [Hout [Habs Hlast]]]]]]]]]]]]].
    exists m', v', rv'. repeat split; auto.
    + intros [|k] l Hk; cbn [nth_error] in Hk.
      * inversion Hk; subst l. rewrite Nat.add_0_r, Hlow by lia.
        rewrite nth_error_replace_nth_same by assumption. now rewrite Hlrow.
      * replace (Z.to_nat i + S k)%nat with (Z.to_nat (i + 1) + k)%nat by lia.
        now apply Hrows.
    + intros j Hj. rewrite Hlow by lia. apply nth_error_replace_nth_other. lia.
    + intros [|k] l Hk; cbn [nth_error] in Hk.
      * inversion Hk; subst l. rewrite Z.add_0_r, Hout by lia.
        rewrite (get_set_same _ Z.eqb_eq). now rewrite Hword.
      * replace (i + Z.of_nat (S k)) with (i + 1 + Z.of_nat k) by lia. now apply Hrev.
    + intros j Hj. cbn [length] in Hj. rewrite Hout by lia.
      apply (get_set_other _ Z.eqb_eq). lia.
    + intros w Hw. rewrite Habs by (intros l Hl; apply Hw; now right).
      apply sget_set_other. rewrite <- Hword. apply Hw. now left.
    + intros [|k] l Hk Hlater; cbn [nth_error] in Hk.
      * inversion Hk; subst l. rewrite Z.add_0_r, Habs.
        -- rewrite Hword. apply sget_set_same.
        -- intros l Hl. apply In_nth_error in Hl. destruct Hl as [k' Hk'].
           apply (Hlater (S k') l); [exact Hk' | lia].
      * replace (i + Z.of_nat (S k)) with (i + 1 + Z.of_nat k) by lia.
        apply Hlast; [assumption|].
        intros k' l' Hk' Hlt'. apply (Hlater (S k') l'); [exact Hk' | lia].
Qed.
End LoadResult.

Section LoadedStore.
Context {NP : Numpy}.

(** The facts of [load_lines_result] for a whole [load]. *)
Lemma load_result self ls loaded :
  0 < WordEmbedding.dimensions self ->
  WordEmbedding.load self (WordEmbedding.Lines ls) = (Ok tt, loaded) ->
  exists m v rv,
    WordEmbedding.embedding loaded = Some m
    /\ WordEmbedding.vocab loaded = Some v
    /\ WordEmbedding.reverse_vocab loaded = Some rv
    /\ Np.ncols m = Z.to_nat (WordEmbedding.dimensions self)
    /\ Np.nrows m = Z.of_nat (length ls)
    /\ (forall k line, nth_error ls k = Some line ->
          nth_error (Np.rows m) k
          = Some (line_row (Z.to_nat (WordEmbedding.dimensions self)) line))
    /\ (forall k line, nth_error ls k = Some line ->
          zget rv (Z.of_nat k) = Some (line_word line))
    /\ (forall j, j < 0 \/ Z.of_nat (length ls) <= j -> zget rv j = None)
    /\ (forall w, (forall line, In line ls -> line_word line <> w) -> sget v w = None)
    /\ (forall k line, nth_error ls k = Some line ->
          (forall k' line', nth_error ls k' = Some line' -> (k < k')%nat ->
                            line_word line' <> line_word line) ->
          sget v (line_word line) = Some (Z.of_nat k)).
Proof.
  intros Hd Hload. rewrite load_Lines in Hload.
  match type of Hload with
  | WordEmbedding.load_lines ?s _ _ = _ =>
      pose proof (load_lines_result ls s 0 _ _ _ loaded eq_refl eq_refl eq_refl) as H
  end.
  cbn [WordEmbedding.dimensions] in H. rewrite empty_nrows in H by lia.
  destruct (H ltac:(lia) ltac:(lia) eq_refl Hd Hload)
    as [m [v [rv [Hm [Hv [Hrv [Hc [Hlen [Hrows [_ [Hrev [Hout [Habs Hlast]]]]]]]]]]]]].
  exists m, v, rv. cbn [Np.ncols Np.empty Np.rows] in *.
  rewrite repeat_length in Hlen.
  repeat split; auto.
  unfold Np.nrows. rewrite Hlen. lia.
Qed.
End LoadedStore.

(** X11.  [load] never changes what the constructor set: [oov_init],
    [random_state] and [dimensions] are the same after the call, whether
    it succeeds or raises. *)
Theorem load_keeps_configuration {NP : Numpy}
    (self : WordEmbedding.t) (f : WordEmbedding.file) :
  WordEmbedding.oov_init (snd (WordEmbedding.load self f)) = WordEmbedding.oov_init self
  /\ WordEmbedding.random_state (snd (WordEmbedding.load self f))
     = WordEmbedding.random_state self
  /\ WordEmbedding.dimensions (snd (WordEmbedding.load self f))
     = WordEmbedding.dimensions self.
Proof.
  destruct f as [|ls]; [cbn; auto|]. rewrite load_Lines.
  match goal with
  | |- context [WordEmbedding.load_lines ?s 0 ls] =>
      destruct (load_lines_keeps_configuration ls s 0) as [H1 [H2 H3]]
  end.
  rewrite H1, H2, H3. auto.
Qed.

(** X12.  After a successful [load] the array has one row per line of the
    file and [dimensions] columns; line [k] of the file is row [k], made
    of the numbers of the line (or of its single number repeated), and
    [reverse_vocab[k]] is the word the line starts with; the reverse
    vocabulary has no other key. *)
Theorem load_stores_lines_in_file_order {NP : Numpy}
    (self loaded : WordEmbedding.t) (ls : list string) :
  50 <= WordEmbedding.dimensions self <= 300 ->
  WordEmbedding.load self (WordEmbedding.Lines ls) = (Ok tt, loaded) ->
  exists m rv,
    WordEmbedding.embedding loaded = Some m
    /\ WordEmbedding.reverse_vocab loaded = Some rv
    /\ Np.nrows m = Z.of_nat (length ls)
    /\ Np.ncols m = Z.to_nat (WordEmbedding.dimensions self)
    /\ Forall (fun row => length row = Z.to_nat (WordEmbedding.dimensions self)) (Np.rows m)
    /\ (forall k line, nth_error ls k = Some line ->
          nth_error (Np.rows m) k
          = Some (line_row (Z.to_nat (WordEmbedding.dimensions self)) line)
          /\ zget rv (Z.of_nat k) = Some (line_word line))
    /\ (forall j, j < 0 \/ Z.of_nat (length ls) <= j -> zget rv j = None).
Proof.
  intros Hd Hload.
  destruct (load_result self ls loaded ltac:(lia) Hload)
    as [m [v [rv [Hm [Hv [Hrv [Hc [Hn [Hrows [Hrev [Hout _]]]]]]]]]]].
  exists m, rv. repeat split; auto.
  pose proof (load_well_loaded self ls ltac:(lia)) as Hwl. rewrite Hload in Hwl.
  destruct Hwl as [m0 [v0 [Hm0 [_ [_ [Hall _]]]]]]. cbn [snd] in Hm0.
  rewrite Hm in Hm0. inversion Hm0; subst m0. now rewrite <- Hc.
Qed.

Lemma load_stores_lines_in_file_order_witness :
  50 <= WordEmbedding.dimensions Examples.store_zero <= 300
  /\ WordEmbedding.load Examples.store_zero (WordEmbedding.Lines ["the 0.5"])
     = (Ok tt, Examples.store_zero_loaded)
  /\ exists m rv,
       WordEmbedding.embedding Examples.store_zero_loaded = Some m
       /\ WordEmbedding.reverse_vocab Examples.store_zero_loaded = Some rv
       /\ Np.nrows m = 1.
Proof.
  assert (Hd : 50 <= WordEmbedding.dimensions Examples.store_zero <= 300) by (cbn; lia).
  assert (Hl : WordEmbedding.load Examples.store_zero (WordEmbedding.Lines ["the 0.5"])
               = (Ok tt, Examples.store_zero_loaded)) by reflexivity.
  split; [exact Hd|]. split; [exact Hl|].
  destruct (load_stores_lines_in_file_order (NP := Plain.numpy)
              Examples.store_zero Examples.store_zero_loaded ["the 0.5"] Hd Hl)
    as [m [rv [Hm [Hrv [Hn _]]]]].
  exists m, rv. auto.
Defined.

(** X13.  After a successful [load] the vocabulary maps a word to the
    number of the last line that starts with it (a later duplicate
    overrides an earlier one) and holds no word that starts no line. *)
Theorem load_maps_word_to_its_last_line {NP : Numpy}
    (self loaded : WordEmbedding.t) (ls : list string) :
  50 <= WordEmbedding.dimensions self <= 300 ->
  WordEmbedding.load self (WordEmbedding.Lines ls) = (Ok tt, loaded) ->
  exists v,
    WordEmbedding.vocab loaded = Some v
    /\ (forall w, (forall line, In line ls -> line_word line <> w) -> sget v w = None)
    /\ (forall k line, nth_error ls k = Some line ->
          (forall k' line', nth_error ls k' = Some line' -> (k < k')%nat ->
                            line_word line' <> line_word line) ->
          sget v (line_word line) = Some (Z.of_nat k)).
Proof.
  intros Hd Hload.
  destruct (load_result self ls loaded ltac:(lia) Hload)
    as [m [v [rv [Hm [Hv [Hrv [Hc [Hn [Hrows [Hrev [Hout [Habs Hlast]]]]]]]]]]]].
  exists v. auto.
Qed.

Lemma load_maps_word_to_its_last_line_witness :
  50 <= WordEmbedding.dimensions Examples.store_zero <= 300
  /\ WordEmbedding.load Examples.store_zero (WordEmbedding.Lines ["the 0.5"])
     = (Ok tt, Examples.store_zero_loaded)
  /\ exists v,
       WordEmbedding.vocab Examples.store_zero_loaded = Some v
       /\ sget v "cat" = None.
Proof.
  assert (Hd : 50 <= WordEmbedding.dimensions Examples.store_zero <= 300) by (cbn; lia).
  assert (Hl : WordEmbedding.load Examples.store_zero (WordEmbedding.Lines ["the 0.5"])
               = (Ok tt, Examples.store_zero_loaded)) by reflexivity.
  split; [exact Hd|]. split; [exact Hl|].
  destruct (load_maps_word_to_its_last_line (NP := Plain.numpy)
              Examples.store_zero Examples.store_zero_loaded ["the 0.5"] Hd Hl)
    as [v [Hv [Habs _]]].
  exists v. split; [exact Hv|]. apply Habs.
  intros line [<- | []]. discriminate.
Defined.

(** X14.  After a successful [load], [get] of a word returns the row of
    the last line of the file that starts with that word, for either
    value of [include_oov], and draws no random numbers. *)
Theorem get_returns_row_of_last_line {NP : Numpy}
    (self loaded : WordEmbedding.t) (ls : list string)
    (k : nat) (line : string) (include_oov : bool) (w : nat) :
  50 <= WordEmbedding.dimensions self <= 300 ->
  WordEmbedding.load self (WordEmbedding.Lines ls) = (Ok tt, loaded) ->
  nth_error ls k = Some line ->
  (forall k' line', nth_error ls k' = Some line' -> (k < k')%nat ->
                    line_word line' <> line_word line) ->
  WordEmbedding.get loaded (line_word line) include_oov w
  = (Ok (line_row (Z.to_nat (WordEmbedding.dimensions self)) line), w).
Proof.
  intros Hd Hload Hk Hlater.
  destruct (load_result self ls loaded ltac:(lia) Hload)
    as [m [v [rv [Hm [Hv [Hrv [Hc [Hn [Hrows [Hrev [Hout [Habs Hlast]]]]]]]]]]]].
  unfold WordEmbedding.get. rewrite Hv, Hm, (Hlast k line Hk Hlater).
  assert (Hlt : (k < length ls)%nat) by (apply nth_error_Some; congruence).
  unfold Np.getitem. rewrite norm_index_in_range by lia.
  now rewrite Nat2Z.id, (Hrows k line Hk).
Qed.

Lemma get_returns_row_of_last_line_witness :
  WordEmbedding.get Examples.store_zero_loaded
    (line_word (NP := Plain.numpy) "the 0.5") true 0
  = (Ok (line_row (NP := Plain.numpy)
           (Z.to_nat (WordEmbedding.dimensions Examples.store_zero)) "the 0.5"), 0%nat).
Proof.
  apply (get_returns_row_of_last_line (NP := Plain.numpy)
           Examples.store_zero Examples.store_zero_loaded ["the 0.5"] 0 "the 0.5" true 0).
  - cbn. lia.
  - reflexivity.
  - reflexivity.
  - intros [|[|k']] line' Hk' Hlt; try lia; discriminate.
Defined.

(** X15.  After a successful [load], [get] of a word that starts no line
    of the file returns the zero vector of length [dimensions] when the
    store was made with [oov_init='zero'] or [include_oov] is false, and
    draws no random numbers. *)
Theorem get_of_unknown_word_returns_zeros {NP : Numpy}
    (self loaded : WordEmbedding.t) (ls : list string)
    (word : string) (include_oov : bool) (w : nat) :
  50 <= WordEmbedding.dimensions self <= 300 ->
  WordEmbedding.load self (WordEmbedding.Lines ls) = (Ok tt, loaded) ->
  (forall line, In line ls -> line_word line <> word) ->
  WordEmbedding.oov_init self = WordEmbedding.zero_init \/ include_oov = false ->
  WordEmbedding.get loaded word include_oov w
  = (Ok (Np.zeros1 (WordEmbedding.dimensions self)), w)
  /\ length (Np.zeros1 (WordEmbedding.dimensions self))
     = Z.to_nat (WordEmbedding.dimensions self).
Proof.
  intros Hd Hload Hnew Hzero. split; [|apply zeros1_length].
  destruct (load_result self ls loaded ltac:(lia) Hload)
    as [m [v [rv [Hm [Hv [Hrv [Hc [Hn [Hrows [Hrev [Hout [Habs Hlast]]]]]]]]]]]].
  assert (Hkeep : WordEmbedding.oov_init loaded = WordEmbedding.oov_init self
                  /\ WordEmbedding.dimensions loaded = WordEmbedding.dimensions self).
  { replace loaded with (snd (WordEmbedding.load self (WordEmbedding.Lines ls)))
      by now rewrite Hload.
    rewrite load_Lines.
    match goal with
    | |- context [WordEmbedding.load_lines ?s 0 ls] =>
        destruct (load_lines_keeps_configuration ls s 0) as [H1 [_ H3]]
    end.
    now rewrite H1, H3. }
  destruct Hkeep as [Hoi Hdim].
  unfold WordEmbedding.get. rewrite Hv, Hm, (Habs word Hnew), Hoi, Hdim.
  destruct Hzero as [-> | ->]; [reflexivity|].
  now destruct (WordEmbedding.oov_init self).
Qed.

Lemma get_of_unknown_word_returns_zeros_witness :
  WordEmbedding.get Examples.store_zero_loaded "zzz" true 0
  = (Ok (Np.zeros1 (NP := Plain.numpy) (WordEmbedding.dimensions Examples.store_zero)),
     0%nat).
Proof.
  apply (get_of_unknown_word_returns_zeros (NP := Plain.numpy)
           Examples.store_zero Examples.store_zero_loaded ["the 0.5"] "zzz" true 0).
  - cbn. lia.
  - reflexivity.
  - intros line [<- | []]. discriminate.
  - now left.
Defined.


(** ** The rows of the weight matrix *)

Lemma enum_from_snd_NoDup k ws : NoDup (map snd (enum_from k ws)).
Proof.
  revert k. induction ws as [|x ws IH]; intros k; cbn [enum_from map snd]; constructor;
    [|apply IH].
  intros Hin. apply in_map_iff in Hin. destruct Hin as [[w i] [Hi Hin]]. cbn in Hi. subst i.
  pose proof (enum_from_bounds (k + 1) ws) as Hb. rewrite Forall_forall in Hb.
  specialize (Hb _ Hin). cbn in Hb. lia.
Qed.

Section MatrixRows.
Context {NP : Numpy}.

(** A row assignment at a positive index that succeeds replaces the row
    at that position; the row written is the vector when it has the
    array's width. *)
Lemma setitem_positive m i vec m' :
  1 <= i -> Np.setitem m i vec = Ok m' ->
  exists row,
    m' = Np.mk (Np.ncols m) (Np.replace_nth (Np.rows m) (Z.to_nat i) row)
    /\ (Z.to_nat i < length (Np.rows m))%nat
    /\ (length vec = Np.ncols m -> row = vec).
Proof.
  intros Hi. unfold Np.setitem, Np.norm_index.
  destruct (Z.leb_spec 0 i) as [Hlo | Hlo]; [|lia]. cbn [andb].
  destruct (Z.ltb_spec i (Np.nrows m)) as [Hhi | Hhi].
  - unfold Np.nrows in Hhi.
    destruct (Nat.eqb_spec (length vec) (Np.ncols m)) as [Hl | Hl].
    + intros Hok. inversion Hok. exists vec. repeat split; auto. lia.
    + destruct vec as [|x [|y vec]]; try discriminate.
      intros Hok. inversion Hok. exists (repeat x (Np.ncols m)).
      repeat split; auto; [lia | intros Hc; contradiction].
  - destruct (Z.leb_spec (- Np.nrows m) i) as [Hl | Hl]; cbn [andb];
      destruct (Z.ltb_spec i 0) as [Hz | Hz]; try lia; discriminate.
Qed.

(** What [get] returns for a word of the store, and for any other word
    under [oov_init='zero']. *)
Lemma get_of_store self wv emb word w vec w' :
  WordEmbedding.vocab self = Some wv ->
  WordEmbedding.embedding self = Some emb ->
  WordEmbedding.get self word true w = (Ok vec, w') ->
  (forall j, sget wv word = Some j -> Np.getitem emb j = Ok vec)
  /\ (sget wv word = None -> WordEmbedding.oov_init self = WordEmbedding.zero_init ->
      vec = Np.zeros1 (WordEmbedding.dimensions self)).
Proof.
  intros Hv Hm. unfold WordEmbedding.get. rewrite Hv, Hm.
  destruct (sget wv word) as [j|].
  - intros H. inversion H. split; [|discriminate]. intros j' Hj. inversion Hj. now subst.
  - intros H. split; [discriminate|]. intros _ Hz. rewrite Hz in H. now inversion H.
Qed.

Lemma fill_rows_content we wv emb items : forall m out w m' out' w',
  WordEmbedding.vocab we = Some wv ->
  WordEmbedding.embedding we = Some emb ->
  Forall (fun r => length r = Np.ncols m) (Np.rows emb) ->
  Z.to_nat (WordEmbedding.dimensions we) = Np.ncols m ->
  NoDup (map snd items) ->
  Forall (fun p => 1 <= snd p) items ->
  Tokenizer.fill_rows we wv items m out w = (Ok (m', out'), w') ->
  out' = out ++ missing_words items wv
  /\ Np.ncols m' = Np.ncols m
  /\ (forall j, ~ In (Z.of_nat j) (map snd items) ->
        nth_error (Np.rows m') j = nth_error (Np.rows m) j)
  /\ (forall word i j r, In (word, i) items -> sget wv word = Some j ->
        Np.getitem emb j = Ok r -> nth_error (Np.rows m') (Z.to_nat i) = Some r)
  /\ (WordEmbedding.oov_init we = WordEmbedding.zero_init ->
      forall word i, In (word, i) items -> sget wv word = None ->
        nth_error (Np.rows m') (Z.to_nat i)
        = Some (Np.zeros1 (WordEmbedding.dimensions we))).
Proof.
  induction items as [|[word index] items IH];
    intros m out w m' out' w' Hv He Hrows Hdim Hnd Hpos Hfill.
  - cbn in Hfill. inversion Hfill; subst. unfold missing_words. cbn.
    rewrite app_nil_r. repeat split; auto; intros; contradiction.
  - cbn [map snd] in Hnd. inversion Hnd as [|? ? Hfresh Hnd']; subst.
    inversion Hpos as [|? ? Hindex Hpos']; subst. cbn [snd] in Hindex.
    cbn [Tokenizer.fill_rows] in Hfill.
    destruct (WordEmbedding.get we word true w) as [[vec|e] w1] eqn:Eget; [|discriminate].
    destruct (Np.setitem m index vec) as [m1|e] eqn:Eset; [|discriminate].
    destruct (setitem_positive _ _ _ _ Hindex Eset) as [row [-> [Hlt Hvec]]].
    destruct (get_of_store _ _ _ _ _ _ _ Hv He Eget) as [Hpresent Habsent].
    destruct (IH (Np.mk (Np.ncols m) (Np.replace_nth (Np.rows m) (Z.to_nat index) row))
                 _ _ _ _ _ Hv He Hrows Hdim Hnd' Hpos' Hfill)
      as [Hout [Hc [Hother [Hin Hzero]]]].
    cbn [Np.ncols Np.rows] in *.
    assert (Hhere : nth_error (Np.rows m') (Z.to_nat index) = Some row).
    { rewrite Hother by (rewrite Z2Nat.id by lia; exact Hfresh).
      now apply nth_error_replace_nth_same. }
    split; [|split; [|split; [|split]]].
    + rewrite Hout. unfold missing_words. cbn [map fst filter].
      destruct (smem wv word); cbn [negb]; [reflexivity | now rewrite <- app_assoc].
    + exact Hc.
    + intros j Hj. cbn [map snd In] in Hj. rewrite Hother by tauto.
      apply nth_error_replace_nth_other. lia.
    + intros word' i j r [Heq | Hin'] Hj Hr.
      * inversion Heq; subst word' i. rewrite Hhere. f_equal.
        assert (Hsame : r = vec)
          by (pose proof (Hpresent j Hj) as Hg; rewrite Hr in Hg; now inversion Hg).
        subst vec. apply Hvec.
        unfold Np.getitem in Hr.
        destruct (Np.norm_index (Np.nrows emb) j) as [p|]; [|discriminate].
        destruct (nth_error (Np.rows emb) p) as [r'|] eqn:Ep; [|discriminate].
        inversion Hr; subst r'. rewrite Forall_forall in Hrows. apply Hrows.
        eapply nth_error_In; eauto.
      * eapply Hin; eauto.
    + intros Hz word' i [Heq | Hin'] Hnone.
      * inversion Heq; subst word' i. rewrite Hhere. f_equal.
        rewrite (Habsent Hnone Hz) in Hvec. apply Hvec.
        rewrite zeros1_length. exact Hdim.
      * now apply (Hzero Hz word' i).
Qed.
End MatrixRows.

Section MatrixContent.
Context {NP : Numpy}.

Lemma build_matrix_content self ws we wv emb w m out w' :
  vocab_inv self ws ->
  WordEmbedding.vocab we = Some wv ->
  WordEmbedding.embedding we = Some emb ->
  Forall (fun r => length r = Z.to_nat (WordEmbedding.dimensions we)) (Np.rows emb) ->
  Tokenizer.build_matrix self we w = (Ok (m, out), w') ->
  out = missing_words (Tokenizer.vocab self) wv
  /\ (forall word i j r, sget (Tokenizer.vocab self) word = Some i ->
        sget wv word = Some j -> Np.getitem emb j = Ok r ->
        nth_error (Np.rows m) (Z.to_nat i) = Some r)
  /\ (WordEmbedding.oov_init we = WordEmbedding.zero_init ->
      forall word i, sget (Tokenizer.vocab self) word = Some i -> sget wv word = None ->
        nth_error (Np.rows m) (Z.to_nat i)
        = Some (Np.zeros1 (WordEmbedding.dimensions we))).
Proof.
  intros [Hnd Hv Hr Hn] Hwv Hemb Hrows Hbuild.
  unfold Tokenizer.build_matrix in Hbuild.
  assert (Hrest : forall m0 w0,
             Np.ncols m0 = Z.to_nat (WordEmbedding.dimensions we) ->
             match Tokenizer.vocab self, WordEmbedding.vocab we with
             | [], _ => (Ok (m0, []), w0)
             | _ :: _, None => (Raise TypeError, w0)
             | items, Some wv => Tokenizer.fill_rows we wv items m0 [] w0
             end = (Ok (m, out), w') ->
             out = missing_words (Tokenizer.vocab self) wv
             /\ (forall word i j r, In (word, i) (Tokenizer.vocab self) ->
                   sget wv word = Some j -> Np.getitem emb j = Ok r ->
                   nth_error (Np.rows m) (Z.to_nat i) = Some r)
             /\ (WordEmbedding.oov_init we = WordEmbedding.zero_init ->
                 forall word i, In (word, i) (Tokenizer.vocab self) -> sget wv word = None ->
                   nth_error (Np.rows m) (Z.to_nat i)
                   = Some (Np.zeros1 (WordEmbedding.dimensions we)))).
  { intros m0 w0 Hc H. rewrite Hwv in H.
    destruct (Tokenizer.vocab self) as [|p items] eqn:Evoc.
    - inversion H. repeat split; auto; intros; contradiction.
    - assert (Hnd' : NoDup (map snd (p :: items)))
        by (rewrite Hv; apply enum_from_snd_NoDup).
      assert (Hpos : Forall (fun q : string * Z => 1 <= snd q) (p :: items))
        by (rewrite Hv; apply enum_from_positive; lia).
      rewrite <- Hc in Hrows.
      destruct (fill_rows_content we wv emb (p :: items) m0 [] w0 m out w'
                  Hwv Hemb Hrows (eq_sym Hc) Hnd' Hpos H)
        as [Hout [_ [_ [Hin Hzero]]]].
      repeat split; auto. }
  assert (Hfinal : forall m0 w0,
             Np.ncols m0 = Z.to_nat (WordEmbedding.dimensions we) ->
             match Tokenizer.vocab self, WordEmbedding.vocab we with
             | [], _ => (Ok (m0, []), w0)
             | _ :: _, None => (Raise TypeError, w0)
             | items, Some wv => Tokenizer.fill_rows we wv items m0 [] w0
             end = (Ok (m, out), w') ->
             out = missing_words (Tokenizer.vocab self) wv
             /\ (forall word i j r, sget (Tokenizer.vocab self) word = Some i ->
                   sget wv word = Some j -> Np.getitem emb j = Ok r ->
                   nth_error (Np.rows m) (Z.to_nat i) = Some r)
             /\ (WordEmbedding.oov_init we = WordEmbedding.zero_init ->
                 forall word i, sget (Tokenizer.vocab self) word = Some i ->
                   sget wv word = None ->
                   nth_error (Np.rows m) (Z.to_nat i)
                   = Some (Np.zeros1 (WordEmbedding.dimensions we)))).
  { intros m0 w0 Hc H. destruct (Hrest m0 w0 Hc H) as [Hout [Hin Hzero]].
    split; [exact Hout|]. split.
    - intros word i j r Hi. apply Hin. now apply (get_In _ String.eqb_eq).
    - intros Hz word i Hi. apply (Hzero Hz). now apply (get_In _ String.eqb_eq). }
  destruct (WordEmbedding.oov_init we).
  - destruct (WordEmbedding.default_rng (WordEmbedding.random_state we) w)
      as [[g|e] w1]; [|discriminate].
    destruct (Np.setitem _ 0 _) as [m0|e] eqn:Eset; [|discriminate].
    destruct (setitem_padding_row _ _ _ _ Eset) as [_ [Hc _]].
    exact (Hfinal m0 w1 Hc Hbuild).
  - exact (Hfinal (Np.zeros (Tokenizer.n_words self + 1) (WordEmbedding.dimensions we))
                  w eq_refl Hbuild).
Qed.
End MatrixContent.

(** X17.  When [create_weight_matrix] hands back a matrix for a fitted
    tokenizer and a store loaded from a file, the row at the index of a
    vocabulary word is the vector the store's [get] returns for that word
    if the store has it, and the zero vector if it has not and the store
    was made with [oov_init='zero']; the list returned with the matrix
    names the vocabulary words the store lacks, in index order. *)
Theorem weight_matrix_rows_are_store_vectors {P : Pipeline} {NP : Numpy}
    (oov : option string) (c : list string) (cs : list (list string))
    (self loaded : WordEmbedding.t) (ls : list string)
    (w : nat) (m : Np.ndarray) (out : list string) (w' : nat) :
  50 <= WordEmbedding.dimensions self <= 300 ->
  WordEmbedding.load self (WordEmbedding.Lines ls) = (Ok tt, loaded) ->
  Tokenizer.create_weight_matrix (fitted oov c cs) (Tokenizer.a_WordEmbedding loaded) true w
  = (Ok (Tokenizer.ret_pair m out), w') ->
  exists wv,
    WordEmbedding.vocab loaded = Some wv
    /\ out = missing_words (Tokenizer.vocab (fitted oov c cs)) wv
    /\ (forall word i, sget (Tokenizer.vocab (fitted oov c cs)) word = Some i ->
          (forall r, smem wv word = true ->
                     fst (WordEmbedding.get loaded word true 0) = Ok r ->
                     nth_error (Np.rows m) (Z.to_nat i) = Some r)
          /\ (WordEmbedding.oov_init loaded = WordEmbedding.zero_init ->
              smem wv word = false ->
              nth_error (Np.rows m) (Z.to_nat i)
              = Some (Np.zeros1 (WordEmbedding.dimensions loaded)))).
Proof.
  intros Hd Hload Hcall. unfold Tokenizer.create_weight_matrix in Hcall.
  destruct (Tokenizer.build_matrix (fitted oov c cs) loaded w) as [[[m0 out0]|e] w0] eqn:Eb;
    [|discriminate].
  inversion Hcall; subst m0 out0 w0.
  destruct (fitted_inv oov c cs) as [Hinv _].
  pose proof (load_well_loaded self ls ltac:(lia)) as Hwl. rewrite Hload in Hwl.
  destruct Hwl as [emb [wv [Hemb [Hwv [Hc [Hrows _]]]]]]. cbn [snd] in *.
  rewrite Hc in Hrows.
  destruct (build_matrix_content _ _ _ _ _ _ _ _ _ Hinv Hwv Hemb Hrows Eb)
    as [Hout [Hin Hzero]].
  exists wv. split; [exact Hwv|]. split; [exact Hout|].
  intros word i Hi. split.
  - intros r Hmem Hget. unfold Dict.mem in Hmem.
    destruct (sget wv word) as [j|] eqn:Ej; [|discriminate].
    apply (Hin word i j r Hi Ej).
    unfold WordEmbedding.get in Hget. rewrite Hwv, Hemb, Ej in Hget. exact Hget.
  - intros Hz Hmem. unfold Dict.mem in Hmem.
    destruct (sget wv word) as [j|] eqn:Ej; [discriminate|].
    now apply (Hzero Hz word i).
Qed.

Lemma weight_matrix_rows_are_store_vectors_witness :
  exists wv,
    WordEmbedding.vocab Examples.store_zero_loaded = Some wv
    /\ ["cat"; "sat"] = missing_words (Tokenizer.vocab Examples.tokenizer_cat) wv.
Proof.
  assert (Hd : 50 <= WordEmbedding.dimensions Examples.store_zero <= 300) by (cbn; lia).
  assert (Hl : WordEmbedding.load Examples.store_zero (WordEmbedding.Lines ["the 0.5"])
               = (Ok tt, Examples.store_zero_loaded)) by reflexivity.
  assert (Hc : Tokenizer.create_weight_matrix Examples.tokenizer_cat
                 (Tokenizer.a_WordEmbedding Examples.store_zero_loaded) true 0
               = (Ok (Tokenizer.ret_pair Examples.matrix_zero ["cat"; "sat"]), 0%nat))
    by reflexivity.
  destruct (weight_matrix_rows_are_store_vectors (P := Plain.whitespace) (NP := Plain.numpy)
              None ["The cat sat"] [] Examples.store_zero Examples.store_zero_loaded
              ["the 0.5"] 0%nat Examples.matrix_zero ["cat"; "sat"] 0%nat Hd Hl Hc)
    as [wv [Hwv [Hout _]]].
  exists wv. split; assumption.
Defined.

(** X18.  [create_weight_matrix] on a store that was never loaded does
    not reach the [RuntimeError] of [get]: for a fitted tokenizer with at
    least one word, and a store that can allocate the matrix, it raises
    [TypeError] when it tests the first word against the missing store
    vocabulary; and it raises [TypeError] for any argument that is not a
    [WordEmbedding]. *)
Theorem create_weight_matrix_on_unloaded_store_raises_TypeError
    {P : Pipeline} {NP : Numpy}
    (oov : option string) (c : list string) (cs : list (list string))
    (dims : Z) (oi : string) (rs : WordEmbedding.random_state_arg)
    (self : WordEmbedding.t) (flag : bool) (w : nat) :
  WordEmbedding.init dims oi rs = Ok self ->
  oi = "zero" \/ rs = WordEmbedding.arg_None ->
  Tokenizer.vocab (fitted oov c cs) <> [] ->
  fst (Tokenizer.create_weight_matrix (fitted oov c cs) (Tokenizer.a_WordEmbedding self) flag w)
  = Raise TypeError
  /\ fst (Tokenizer.create_weight_matrix (fitted oov c cs) Tokenizer.a_other flag w)
     = Raise TypeError.
Proof.
  intros Hinit Hrng Hne. split; [|reflexivity].
  destruct (init_unloaded _ _ _ _ Hinit) as [_ [Hv _]].
  destruct (fitted_inv oov c cs) as [[_ _ _ Hn] _].
  assert (Hnw : 0 <= Tokenizer.n_words (fitted oov c cs)) by lia.
  assert (Hcfg : WordEmbedding.oov_init self = WordEmbedding.zero_init
                 \/ WordEmbedding.random_state self = WordEmbedding.np_random).
  { unfold WordEmbedding.init in Hinit. destruct Hrng as [-> | ->].
    - left. cbn in Hinit. destruct rs; cbn in Hinit; try discriminate;
        destruct ((50 <=? dims) && (dims <? 301)); inversion Hinit; reflexivity.
    - right. destruct (String.eqb oi "zero"); [|destruct (String.eqb oi "rand")];
        cbn in Hinit; try discriminate;
        destruct ((50 <=? dims) && (dims <? 301)); inversion Hinit; reflexivity. }
  unfold Tokenizer.create_weight_matrix, Tokenizer.build_matrix. rewrite Hv.
  destruct (Tokenizer.vocab (fitted oov c cs)) as [|p items]; [congruence|].
  destruct (WordEmbedding.oov_init self) eqn:Eoi.
  - destruct Hcfg as [Hz | Hr]; [discriminate|]. rewrite Hr.
    cbn [WordEmbedding.default_rng].
    rewrite setitem_fitting_row; [reflexivity | | apply zeros1_length].
    rewrite uniform2_nrows; lia.
  - reflexivity.
Qed.

Lemma create_weight_matrix_on_unloaded_store_raises_TypeError_witness :
  fst (Tokenizer.create_weight_matrix Examples.tokenizer_cat
         (Tokenizer.a_WordEmbedding Examples.store_zero) true 0)
  = Raise TypeError.
Proof.
  apply (create_weight_matrix_on_unloaded_store_raises_TypeError
           (P := Plain.whitespace) (NP := Plain.numpy)
           None ["The cat sat"] [] 50 "zero" WordEmbedding.arg_None
           Examples.store_zero true 0).
  - reflexivity.
  - now left.
  - discriminate.
Defined.

(** ** When the weight matrix is built *)

Lemma create_weight_matrix_returns_witness :
  exists r w',
    Tokenizer.create_weight_matrix Examples.tokenizer_cat
      (Tokenizer.a_WordEmbedding Examples.store_rand_loaded) true 0
    = (Ok r, w').
Proof.
  apply (create_weight_matrix_returns (P := Plain.whitespace) (NP := Plain.numpy)
           None ["The cat sat"] [] 50 "rand" WordEmbedding.arg_None
           Examples.store_rand ["the 0.5"] Examples.store_rand_loaded true 0).
  - reflexivity.
  - reflexivity.
  - now right.
Defined.

(** X20.  A store made with [oov_init='rand'] and an integer seed or a
    [RandomState] object makes [create_weight_matrix] raise
    [AttributeError], for every tokenizer, before or after any [load] and
    with either value of the flag: the matrix is never allocated. *)
Theorem create_weight_matrix_with_seeded_rand_store_raises {P : Pipeline} {NP : Numpy}
    (tk : Tokenizer.t) (dims seed : Z) (by_object : bool)
    (self : WordEmbedding.t) (files : list WordEmbedding.file) (flag : bool) (w : nat) :
  WordEmbedding.init dims "rand"
    (if by_object then WordEmbedding.arg_RandomState seed else WordEmbedding.arg_int seed)
  = Ok self ->
  Tokenizer.create_weight_matrix tk (Tokenizer.a_WordEmbedding (load_all self files)) flag w
  = (Raise AttributeError, w).
Proof.
  intros Hinit.
  assert (Hself : WordEmbedding.oov_init self = WordEmbedding.rand
                  /\ WordEmbedding.random_state self = WordEmbedding.RandomState seed).
  { unfold WordEmbedding.init in Hinit. cbn in Hinit.
    destruct by_object; cbn in Hinit;
      destruct ((50 <=? dims) && (dims <? 301)); inversion Hinit; auto. }
  assert (Hall : WordEmbedding.oov_init (load_all self files) = WordEmbedding.rand
                 /\ WordEmbedding.random_state (load_all self files)
                    = WordEmbedding.RandomState seed).
  { unfold load_all. clear Hinit. revert self Hself.
    induction files as [|f files IH]; intros self Hself; cbn [fold_left]; [exact Hself|].
    apply (IH (snd (WordEmbedding.load self f))).
    destruct Hself as [H1 H2]. destruct f as [|ls]; [cbn; auto|]. rewrite load_Lines.
    match goal with
    | |- context [WordEmbedding.load_lines ?s 0 ls] =>
        destruct (load_lines_keeps_configuration ls s 0) as [K1 [K2 _]]
    end.
    rewrite K1, K2. auto. }
  destruct Hall as [Hoi Hrs].
  unfold Tokenizer.create_weight_matrix, Tokenizer.build_matrix.
  now rewrite Hoi, Hrs.
Qed.

Lemma create_weight_matrix_with_seeded_rand_store_raises_witness :
  Tokenizer.create_weight_matrix Examples.tokenizer_cat
    (Tokenizer.a_WordEmbedding (load_all Examples.store_seeded [Examples.one_value_file]))
    true 0
  = (Raise AttributeError, 0%nat).
Proof.
  apply (create_weight_matrix_with_seeded_rand_store_raises
           (P := Plain.whitespace) (NP := Plain.numpy)
           Examples.tokenizer_cat 50 42 false Examples.store_seeded
           [Examples.one_value_file] true 0).
  reflexivity.
Defined.

(** ** Fitting in batches *)

(** X21.  Fitting a corpus in several [fit] calls builds the same
    vocabulary, reverse vocabulary and word counter, and the same count
    for every word, as fitting all its texts in one call. *)
Theorem fit_in_batches_builds_same_vocabulary {P : Pipeline}
    (oov : option string) (c : list string) (cs : list (list string)) (w : string) :
  Tokenizer.vocab (fitted oov c cs) = Tokenizer.vocab (fitted oov (c ++ concat cs) [])
  /\ Tokenizer.reverse_vocab (fitted oov c cs)
     = Tokenizer.reverse_vocab (fitted oov (c ++ concat cs) [])
  /\ Tokenizer.n_words (fitted oov c cs) = Tokenizer.n_words (fitted oov (c ++ concat cs) [])
  /\ sget (Tokenizer.words_count (fitted oov c cs)) w
     = sget (Tokenizer.words_count (fitted oov (c ++ concat cs) [])) w.
Proof.
  destruct (fitted_inv oov c cs) as [[_ Hv Hr Hn] _].
  destruct (fitted_inv oov (c ++ concat cs) []) as [[_ Hv' Hr' Hn'] _].
  cbn [concat] in Hv', Hr', Hn'. rewrite app_nil_r in Hv', Hr', Hn'.
  rewrite Hv, Hv', Hr, Hr', Hn, Hn'. repeat split.
  assert (H0 : counts (Tokenizer.words_count (Tokenizer.init oov)) [])
    by (split; [constructor | reflexivity]).
  destruct (fit_all_counts (c :: cs) _ _ H0) as [_ Hget].
  destruct (fit_all_counts [c ++ concat cs] _ _ H0) as [_ Hget'].
  unfold fitted. rewrite Hget, Hget'. cbn [concat app]. now rewrite app_nil_r.
Qed.
